(** * PsyduckCanvas: the procedural mosaic renderer

    A shallow embedding of the rendering core of
    [src/components/PsyduckCanvas.jsx]: the alpha-mask pipeline, the noise
    hash, the turbulence-field packing, the energy-mask compositor, the
    region classifier, the final composite and the phase scheduling.

    Conventions.
    - A JavaScript integer (an index, a byte of a [Uint8ClampedArray], the
      result of [x | 0]) is a [Z]; 32-bit wrap-around is written out with
      [ToInt32] and [ToUint32].
    - Where a byte or a size is obtained by truncating or rounding a double
      ([bitmapToAlphaMaskCanvas], the working resolution of the energy
      effect, the turbulence field and its sampling, the energy mask), the
      arithmetic is done on Rocq's primitive binary64 floats, which are the
      doubles of JavaScript. [Math.sin], [Math.cos] and [Math.pow], whose
      values the language leaves to the engine, are parameters.
    - Elsewhere a JavaScript number is modelled by its exact value: a
      rational [Q], or a [number] when NaN and the infinities matter.
      Comparison, [Math.floor], [Math.round] and [x | 0] are functions of
      that value; sums and products are taken exactly. The noise functions
      are given both ways: [Noise] by value, [Noise64] on doubles.
    - A read outside a typed array gives [undefined] in JavaScript: [None]
      here. *)

From Stdlib Require Import ZArith QArith Qround Lia Lqa List Bool.
From Stdlib Require Import Uint63 PrimFloat FloatOps SpecFloat FloatAxioms.
From stdpp Require Import base option list strings gmap.

Local Open Scope Z_scope.

(* Decimal literals of the source are read as the nearest double. *)
Set Warnings "-inexact-float".

(* ===================================================================== *)
(** * Definitions *)
(* ===================================================================== *)

(** ** JavaScript integers *)

Module JS.

Definition two32 : Z := 4294967296.
Definition two31 : Z := 2147483648.

(** [ToUint32]: the value modulo 2^32. *)
Definition ToUint32 (z : Z) : Z := z mod two32.

(** [ToInt32]: the value modulo 2^32, read as a signed 32-bit integer. *)
Definition ToInt32 (z : Z) : Z :=
  let u := z mod two32 in
  if u <? two31 then u else u - two32.

(** [Math.imul(a, b)]. *)
Definition imul (a b : Z) : Z := ToInt32 (ToInt32 a * ToInt32 b).

(** [a ^ b] on numbers. *)
Definition xor (a b : Z) : Z := ToInt32 (Z.lxor (ToInt32 a) (ToInt32 b)).

(** [a >>> k]. *)
Definition ushr (a k : Z) : Z := Z.shiftr (ToUint32 a) (k mod 32).

(** A store into a [Uint8ClampedArray] of an integer-valued number. *)
Definition clampU8 (z : Z) : Z := Z.max 0 (Z.min 255 z).

(** The integer part of a double, towards zero; NaN and the infinities
    give 0, as in [ToInt32]. *)
Definition float_trunc (f : float) : Z :=
  match Prim2SF f with
  | S754_finite s m e =>
      let mag := if 0 <=? e then Z.shiftl (Z.pos m) e
                 else Z.shiftr (Z.pos m) (- e) in
      if s then - mag else mag
  | _ => 0
  end.

(** [f | 0] on a double. *)
Definition float_or0 (f : float) : Z := ToInt32 (float_trunc f).

(** A byte read from a typed array, as a double. *)
Definition float_of_byte (z : Z) : float := PrimFloat.of_uint63 (Uint63.of_Z z).

(** An integer of magnitude below 2^53, as a double. *)
Definition float_of_Z (z : Z) : float :=
  if z <? 0 then (- PrimFloat.of_uint63 (Uint63.of_Z (- z)))%float
  else PrimFloat.of_uint63 (Uint63.of_Z z).

(** [Math.round(f)] on a double: the double is n * 2^e exactly, and for
    e < 0 the floor of n / 2^(-e) + 1/2 is (n + 2^(-e-1)) shifted right by
    -e; NaN and the infinities, which round to themselves, are [None]. *)
Definition float_round (f : float) : option Z :=
  match Prim2SF f with
  | S754_zero _ => Some 0
  | S754_finite s m e =>
      let n := if s then Z.neg m else Z.pos m in
      Some (if 0 <=? e then Z.shiftl n e
            else Z.shiftr (n + Z.shiftl 1 (- e - 1)) (- e))
  | _ => None
  end.

(** [Math.min(a, b)] and [Math.max(a, b)] on doubles. *)
Definition float_min (a b : float) : float :=
  if is_nan a || is_nan b then nan else if (b <? a)%float then b else a.

Definition float_max (a b : float) : float :=
  if is_nan a || is_nan b then nan else if (a <? b)%float then b else a.

(** [Math.floor(f)] on a double. A double with a non-negative exponent, or
    whose mantissa has no bit below the binary point, is an integer
    already; any other lies between two integers of magnitude below 2^53,
    and the smaller one is taken. NaN, the infinities and the zeros are
    returned as they are. *)
Definition float_floor (f : float) : float :=
  match Prim2SF f with
  | S754_finite s m e =>
      if 0 <=? e then f
      else
        let d := Z.shiftr (Z.pos m) (- e) in
        if Z.shiftl d (- e) =? Z.pos m then f
        else if s then float_of_Z (- (d + 1)) else float_of_Z d
  | _ => f
  end.

(** The integer a double is, if it is one; [-0] is 0. A typed array read at
    a double that is no integer gives [undefined]. *)
Definition float_int (f : float) : option Z :=
  match Prim2SF f with
  | S754_zero _ => Some 0
  | S754_finite s m e =>
      let mag :=
        if 0 <=? e then Some (Z.shiftl (Z.pos m) e)
        else
          let d := Z.shiftr (Z.pos m) (- e) in
          if Z.shiftl d (- e) =? Z.pos m then Some d else None in
      (fun n => if s then - n else n) <$> mag
  | _ => None
  end.

(** What was read from a typed array, as an operand of double arithmetic:
    [undefined] becomes NaN. *)
Definition float_elem (o : option Z) : float :=
  match o with
  | Some b => float_of_byte b
  | None => nan
  end.

End JS.

(** ** Pixel buffers *)

(** The [data] of an [ImageData]: RGBA bytes, row-major, four per pixel. *)
Record ImageData : Type := mkImageData {
width : Z;
height : Z;
data : list Z
}.

(** [data[i]] for a number [i] that is an integer: [undefined] outside. *)
Definition js_get (d : list Z) (i : Z) : option Z :=
if i <? 0 then None else d !! Z.to_nat i.

(** ** Mask pipeline *)

Module MaskPipeline.
Import JS.
Local Open Scope float_scope.

(** [(0.2126 * r + 0.7152 * g + 0.0722 * b) | 0] *)
Definition lum (r g b : Z) : Z :=
  float_or0 (0.2126 * float_of_byte r + 0.7152 * float_of_byte g
           + 0.0722 * float_of_byte b).

(** [const a = lum <= threshold ? 0 : lum] *)
Definition alpha_of (threshold : Z) (r g b : Z) : Z :=
  let l := lum r g b in
  if (l <=? threshold)%Z then 0%Z else l.

(** The loop [for (i = 0; i < d.length; i += 4)] over the pixel data.
    A tail shorter than a pixel reads [undefined] channels, whose
    luminance is [NaN | 0 = 0]: every byte that is left is written 0. *)
Fixpoint alphaMaskData (threshold : Z) (d : list Z) : list Z :=
  match d with
  | r :: g :: b :: _ :: rest =>
      0%Z :: 0%Z :: 0%Z :: clampU8 (alpha_of threshold r g b)
        :: alphaMaskData threshold rest
  | tail => map (fun _ => 0%Z) tail
  end.

(** [bitmapToAlphaMaskCanvas(bitmap, outW, outH, 1, threshold)], given the
    canvas [drawn] that [sctx.drawImage(bitmap, 0, 0, cw, ch)] rasterised. *)
Definition bitmapToAlphaMaskCanvas (drawn : ImageData) (threshold : Z) : ImageData :=
  {| width := width drawn; height := height drawn;
     data := alphaMaskData threshold (data drawn) |}.

(** [n] pixels of one colour. *)
Fixpoint solid (n : nat) (r g b a : Z) : list Z :=
  match n with
  | O => []
  | S n => r :: g :: b :: a :: solid n r g b a
  end.

End MaskPipeline.

(** ** JavaScript numbers by value *)

(** A number is NaN, an infinity, or finite with an exact value; -0 is
    identified with 0, which no operation below tells apart. *)
Inductive number : Type :=
| NaN
| PosInf
| NegInf
| Num (q : Q).

Module Num.
Import JS.

(** The integer part of a rational, towards zero. *)
Definition Qtrunc (q : Q) : Z :=
  if Qle_bool 0 q then Qfloor q else Qceiling q.

(** [q | 0] on a finite number. *)
Definition Qor0 (q : Q) : Z := ToInt32 (Qtrunc q).

(** [Math.round(q)]: the nearest integer, ties towards +infinity. *)
Definition Math_round (q : Q) : Z := Qfloor (q + (1 # 2))%Q.

(** [Math.floor(q)]. *)
Definition Math_floor (q : Q) : Z := Qfloor q.

(** [q < r] on finite numbers. *)
Definition Qltb (q r : Q) : bool := negb (Qle_bool r q).

Definition Qmax (q r : Q) : Q := if Qle_bool q r then r else q.
Definition Qmin (q r : Q) : Q := if Qle_bool q r then q else r.
Definition Qabs' (q : Q) : Q := if Qle_bool 0 q then q else (- q)%Q.

(** [x < n] for an integer [n]; a comparison with NaN is false. *)
Definition ltZ (x : number) (n : Z) : bool :=
  match x with
  | NaN => false
  | PosInf => false
  | NegInf => true
  | Num q => Qltb q (inject_Z n)
  end.

(** [x > n] for an integer [n]. *)
Definition gtZ (x : number) (n : Z) : bool :=
  match x with
  | NaN => false
  | PosInf => true
  | NegInf => false
  | Num q => Qltb (inject_Z n) q
  end.

(** [x | 0]: NaN and the infinities give 0. *)
Definition or0 (x : number) : Z :=
  match x with
  | Num q => Qor0 q
  | _ => 0
  end.

(** A number that is NaN or finite, from its optional value. *)
Definition of_option (o : option Q) : number :=
  match o with
  | Some q => Num q
  | None => NaN
  end.

(** The value of a double. *)
Definition of_float (f : float) : number :=
  match Prim2SF f with
  | S754_zero _ => Num 0
  | S754_infinity s => if s then NegInf else PosInf
  | S754_nan => NaN
  | S754_finite s m e =>
      let n := if s then Z.neg m else Z.pos m in
      Num (if 0 <=? e then inject_Z (Z.shiftl n e)
           else n # Z.to_pos (Z.shiftl 1 (- e)))
  end.

End Num.

(** ** Noise engine *)

(** The noise functions by value: every number is the exact rational, and
    the loop of [fbm2D] runs for any number of octaves. The doubles of the
    source follow these values, up to rounding, while they are finite;
    [Noise64] below has the doubles themselves. *)
Module Noise.
Import JS Num.

(** [clamp01(x)] *)
Definition clamp01 (x : Q) : Q :=
  if Qltb x 0 then 0%Q else if Qltb 1 x then 1%Q else x.

(** [smoothstep(t)] *)
Definition smoothstep (t : Q) : Q := (t * t * (3 - 2 * t))%Q.

(** [lerp(a, b, t)] *)
Definition lerp (a b t : Q) : Q := (a + (b - a) * t)%Q.

(** The unsigned 32-bit integer [n] that [hash2i] divides by 4294967295. *)
Definition hash2i_bits (x y seed : Z) : Z :=
  let n := ToInt32 (xor (xor (imul (ToInt32 x) 374761393)
                             (imul (ToInt32 y) 668265263)) seed) in
  let n := imul (xor n (ushr n 13)) 1274126177 in
  let n := ushr (xor n (ushr n 16)) 0 in
  n.

(** [hash2i(x, y, seed)] *)
Definition hash2i (x y seed : Z) : Q :=
  (inject_Z (hash2i_bits x y seed) / 4294967295)%Q.

(** [valueNoise2D(x, y, seed)] *)
Definition valueNoise2D (x y : Q) (seed : Z) : Q :=
  let xi := Math_floor x in
  let yi := Math_floor y in
  let xf := (x - inject_Z xi)%Q in
  let yf := (y - inject_Z yi)%Q in
  let u := smoothstep xf in
  let v := smoothstep yf in
  let a := hash2i xi yi seed in
  let b := hash2i (xi + 1) yi seed in
  let c := hash2i xi (yi + 1) seed in
  let d := hash2i (xi + 1) (yi + 1) seed in
  let ab := lerp a b u in
  let cd := lerp c d u in
  lerp ab cd v.

(** The loop of [fbm2D], [todo] octaves from octave [i] on. *)
Fixpoint fbm_loop (todo : nat) (i : Z) (x y : Q) (seed : Z)
    (sum amp freq norm : Q) : Q * Q :=
  match todo with
  | O => (sum, norm)
  | S todo =>
      let sum := (sum + amp * valueNoise2D (x * freq) (y * freq) (seed + i * 1013))%Q in
      let norm := (norm + amp)%Q in
      fbm_loop todo (i + 1) x y seed sum (amp * 0.5)%Q (freq * 2)%Q norm
  end.

(** [fbm2D(x, y, octaves, seed)] *)
Definition fbm2D (x y : Q) (octaves : nat) (seed : Z) : Q :=
  let '(sum, norm) := fbm_loop octaves 0 x y seed 0%Q 0.5%Q 1%Q 0%Q in
  if Qltb 0 norm then (sum / norm)%Q else 0%Q.

End Noise.

(** ** Noise engine, on doubles *)

(** The same functions as the doubles compute them; [Noise] above gives
    their values in exact arithmetic. The bytes of the turbulence field and
    of the energy mask are truncations of doubles, so they are derived from
    these. *)
Module Noise64.
Import JS.
Local Open Scope float_scope.

(** [clamp01(x)]; NaN, for which both comparisons are false, is returned. *)
Definition clamp01 (x : float) : float :=
  if x <? 0 then 0 else if 1 <? x then 1 else x.

(** [smoothstep(t)] *)
Definition smoothstep (t : float) : float := t * t * (3 - 2 * t).

(** [lerp(a, b, t)] *)
Definition lerp (a b t : float) : float := a + (b - a) * t.

(** [hash2i(x, y, seed)]: [x | 0] and [y | 0] are [ToInt32] of the truncated
    doubles, and the unsigned 32-bit [n] is a double exactly. *)
Definition hash2i (x y : float) (seed : Z) : float :=
  float_of_Z (Noise.hash2i_bits (float_trunc x) (float_trunc y) seed) / 4294967295.

(** [valueNoise2D(x, y, seed)] *)
Definition valueNoise2D (x y : float) (seed : Z) : float :=
  let xi := float_floor x in
  let yi := float_floor y in
  let xf := x - xi in
  let yf := y - yi in
  let u := smoothstep xf in
  let v := smoothstep yf in
  let a := hash2i xi yi seed in
  let b := hash2i (xi + 1) yi seed in
  let c := hash2i xi (yi + 1) seed in
  let d := hash2i (xi + 1) (yi + 1) seed in
  let ab := lerp a b u in
  let cd := lerp c d u in
  lerp ab cd v.

(** The loop of [fbm2D], [todo] octaves from octave [i] on. *)
Fixpoint fbm_loop (todo : nat) (i : Z) (x y : float) (seed : Z)
    (sum amp freq norm : float) : float * float :=
  match todo with
  | O => (sum, norm)
  | S todo =>
      let sum := sum + amp * valueNoise2D (x * freq) (y * freq) (seed + i * 1013)%Z in
      let norm := norm + amp in
      fbm_loop todo (i + 1)%Z x y seed sum (amp * 0.5) (freq * 2) norm
  end.

(** [fbm2D(x, y, octaves, seed)] *)
Definition fbm2D (x y : float) (octaves : nat) (seed : Z) : float :=
  let '(sum, norm) := fbm_loop octaves 0%Z x y seed 0 0.5 1 0 in
  if 0 <? norm then sum / norm else 0.

End Noise64.

(** ** Sampling the outline mask and the turbulence field *)

Module Sampling.
Import JS Num.

(** [x < 0 ? 0 : x > n - 1 ? n - 1 : x | 0] *)
Definition clampIndex (x : number) (n : Z) : Z :=
  if ltZ x 0 then 0 else if gtZ x (n - 1) then n - 1 else or0 x.

(** [sampleOutlineAlphaNearest(outData, outW, outH, x, y)] *)
Definition sampleOutlineAlphaNearest (outData : list Z) (outW outH : Z)
    (x y : number) : option Z :=
  let xi := clampIndex x outW in
  let yi := clampIndex y outH in
  js_get outData ((yi * outW + xi) * 4 + 3).

(** What [sampleSaberField] returns. *)
Record SaberField : Type := mkSaberField {
dx : float;
dy : float;
spark : float;
fil : float
}.

(** [(y * res + x) * 4] for two of [x0], [y0], [x1], [y1], which are
    integers unless they are NaN or infinite; then the index is no integer
    either and a read at it gives [undefined]. The index is computed
    exactly, as the doubles do below 2^53. *)
Definition pixelAt (res : Z) (y x : option Z) : option Z :=
  y ← y; x ← x; Some ((y * res + x) * 4).

(** [noiseData[i + c]] as an operand. *)
Definition channel (d : list Z) (i : option Z) (c : Z) : float :=
  float_elem (i ≫= fun i => js_get d (i + c)).

(** [(d[i00 + c] * w00 + d[i10 + c] * w10 + d[i01 + c] * w01
      + d[i11 + c] * w11) / 255] *)
Definition blend (d : list Z) (i00 i10 i01 i11 : option Z) (c : Z)
    (w00 w10 w01 w11 : float) : float :=
  ((channel d i00 c * w00 + channel d i10 c * w10 + channel d i01 c * w01
    + channel d i11 c * w11) / 255)%float.

(** [sampleSaberField(noiseData, res, u, v)], on doubles. *)
Definition sampleSaberField (noiseData : list Z) (res : Z) (u v : float) : SaberField :=
  let x := (u * float_of_Z (res - 1))%float in
  let y := (v * float_of_Z (res - 1))%float in
  let x0 := float_floor x in
  let y0 := float_floor y in
  let x1 := float_min (float_of_Z (res - 1)) (x0 + 1)%float in
  let y1 := float_min (float_of_Z (res - 1)) (y0 + 1)%float in
  let tx := (x - x0)%float in
  let ty := (y - y0)%float in
  let w00 := ((1 - tx) * (1 - ty))%float in
  let w10 := (tx * (1 - ty))%float in
  let w01 := ((1 - tx) * ty)%float in
  let w11 := (tx * ty)%float in
  let i00 := pixelAt res (float_int y0) (float_int x0) in
  let i10 := pixelAt res (float_int y0) (float_int x1) in
  let i01 := pixelAt res (float_int y1) (float_int x0) in
  let i11 := pixelAt res (float_int y1) (float_int x1) in
  let r := blend noiseData i00 i10 i01 i11 0 w00 w10 w01 w11 in
  let g := blend noiseData i00 i10 i01 i11 1 w00 w10 w01 w11 in
  let b := blend noiseData i00 i10 i01 i11 2 w00 w10 w01 w11 in
  let a := blend noiseData i00 i10 i01 i11 3 w00 w10 w01 w11 in
  {| dx := (r * 2 - 1)%float;
     dy := (g * 2 - 1)%float;
     spark := b;
     fil := a |}.

(** What [sampleSaberField] makes of one byte [b] on its own, that is with
    the weights 1, 0, 0, 0: the displacement [b / 255 * 2 - 1] and the
    intensity [b / 255]. *)
Definition decodeDisp (b : Z) : float := (float_of_byte b / 255 * 2 - 1)%float.


End Sampling.

(** ** Turbulence field synthesizer *)

(** The builtins whose values the language leaves to the engine. *)
Record MathLib : Type := mkMathLib {
Math_sin : float -> float;
Math_cos : float -> float;
Math_pow : float -> float -> float
}.

Module Turbulence.
Import JS Noise64.
Local Open Scope float_scope.

(** The options of [renderSaberFields], after the [??] defaults. *)
Record FieldOpts : Type := mkFieldOpts {
seed : Z;
dispScale : float;
filScale : float;
octDisp : nat;
octFil : nat;
flowX : float;
flowY : float
}.

Definition defaultFieldOpts : FieldOpts :=
  mkFieldOpts 7331 2.15 7.6 3 4 0.28 0.22.

(** [((d * 0.5 + 0.5) * 255) | 0], stored into the [Uint8ClampedArray]. *)
Definition packDisp (d : float) : Z := clampU8 (float_or0 ((d * 0.5 + 0.5) * 255)).

(** [(s * 255) | 0], stored into the [Uint8ClampedArray]. *)
Definition packUnit (s : float) : Z := clampU8 (float_or0 (s * 255)).

(** The rotation by the angle with cosine [ca] and sine [sa] and the scaling
    by 1.15 of the displacement [((nx - 0.5) * 2, (ny - 0.5) * 2)]. *)
Definition curlBy (ca sa nx ny : float) : float * float :=
  let dx := (nx - 0.5) * 2 in
  let dy := (ny - 0.5) * 2 in
  let cdx := dx * ca - dy * sa in
  let cdy := dx * sa + dy * ca in
  (cdx * 1.15, cdy * 1.15).

(** [ang = (nx + ny - 1) * 1.65] *)
Definition curlAngle (nx ny : float) : float := (nx + ny - 1) * 1.65.

(** The displacement vector after the curl, from the two fbm samples. *)
Definition curl (M : MathLib) (nx ny : float) : float * float :=
  let ang := curlAngle nx ny in
  curlBy (Math_cos M ang) (Math_sin M ang) nx ny.

(** Filament and spark intensities from the high-frequency sample. *)
Definition filaments (M : MathLib) (n flick : float) : float * float :=
  let ridged := 1 - abs (2 * n - 1) in
  let fil := Math_pow M ridged 3.25 in
  let spark := Math_pow M (clamp01 ((n - 0.62) * 3.4)) 2.1 in
  let fil := clamp01 ((fil * 0.85 + spark * 0.55) * flick) in
  (spark, fil).

(** The four bytes [renderSaberFields] packs for the pixel [(x, y)]. *)
Definition saberFieldPixel (M : MathLib) (res : Z) (tSec : float) (o : FieldOpts)
    (x y : Z) : list Z :=
  let fx := tSec * flowX o in
  let fy := tSec * flowY o in
  let flick := 0.9 + 0.1 * Math_sin M (tSec * 3.2) in
  let v := float_of_Z y / float_of_Z res in
  let u := float_of_Z x / float_of_Z res in
  let nx := fbm2D (u * dispScale o + fx) (v * dispScale o + fy) (octDisp o) (seed o) in
  let ny := fbm2D (u * dispScale o + 37 + fx * 0.92) (v * dispScale o + 91 + fy * 1.08)
              (octDisp o) (seed o + 19)%Z in
  let '(dx, dy) := curl M nx ny in
  let n := fbm2D (u * filScale o + fx * 2.1) (v * filScale o - fy * 2.4)
             (octFil o) (seed o + 77)%Z in
  let '(spark, fil) := filaments M n flick in
  [packDisp dx; packDisp dy; packUnit spark; packUnit fil].

(** [renderSaberFields(noiseState, tSec, opts)]: the new content of
    [noiseState.data], of side [res]. *)
Definition renderSaberFields (M : MathLib) (res : Z) (tSec : float) (o : FieldOpts)
    : list Z :=
  flat_map (fun y => flat_map (fun x => saberFieldPixel M res tSec o x y)
                       (seqZ 0 res)) (seqZ 0 res).

End Turbulence.

(** ** Energy mask compositor *)

Module Energy.
Import JS Num Noise64 Sampling.

(** The options of [renderSaberEnergyMask], after the [??] defaults. *)
Record EnergyOpts : Type := mkEnergyOpts {
amp : float;
gain : float;
cut : float;
sharpPow : float
}.

Definition defaultEnergyOpts : EnergyOpts := mkEnergyOpts 3.6 1.15 0.16 1.9.

Section Pixel.
Variable M : MathLib.
Variables (outData : list Z) (outW outH : Z).
Variables (nData : list Z) (nRes : Z).
Variables (w h : Z) (tSec : float) (o : EnergyOpts).
Local Open Scope float_scope.

(** The turbulence field the pixel [(x, y)] samples. *)
Definition fieldAt (x y : Z) : SaberField :=
  let invW := 1 / float_of_Z (Z.max 1 (w - 1)) in
  let invH := 1 / float_of_Z (Z.max 1 (h - 1)) in
  let v := float_of_Z y * invH in
  let u := float_of_Z x * invW in
  sampleSaberField nData nRes u v.

(** [oa]: the outline alpha sampled at the displaced, rescaled coordinate
    of the pixel [(x, y)]. *)
Definition outlineAlphaAt (x y : Z) : option Z :=
  let invH := 1 / float_of_Z (Z.max 1 (h - 1)) in
  let v := float_of_Z y * invH in
  let wave := Math_sin M ((v * 14 + tSec * 3.0) * 1.0) * 0.55 in
  let field := fieldAt x y in
  let sx := float_of_Z x + dx field * amp o + wave in
  let sy := float_of_Z y + dy field * amp o in
  let ox := sx * (float_of_Z outW / float_of_Z w) in
  let oy := sy * (float_of_Z outH / float_of_Z h) in
  sampleOutlineAlphaNearest outData outW outH (of_float ox) (of_float oy).

(** [intensity]: strands and sparks of the field at the pixel [(x, y)]. *)
Definition intensity (x y : Z) : float :=
  let field := fieldAt x y in
  let strand := fil field in
  let strand := clamp01 ((strand - cut o) * 1.35) in
  let strand := Math_pow M strand (sharpPow o) in
  let spark := Math_pow M (spark field) 1.25 in
  clamp01 (strand * 0.95 + spark * 0.8).

(** [hf]: the flicker of the pixel [(x, y)]. *)
Definition hf (x y : Z) : float :=
  let crawl := 0.45 + 0.35 * Math_sin M (tSec * 2.8) in
  0.82 + 0.18 * Math_sin M (tSec * 13.0 + float_of_Z (x + y) * 0.015 + crawl).

(** [a]: the opacity of a pixel whose outline alpha [oa] is not 0. An [oa]
    that is [undefined] makes it NaN. *)
Definition opacity (oa : option Z) (x y : Z) : float :=
  let base := float_elem oa / 255 in
  clamp01 (base * (0.14 + intensity x y) * gain o * hf x y).

(** [(a * 255) | 0], stored into the [Uint8ClampedArray]; [NaN | 0] is 0. *)
Definition alphaByte (a : float) : Z := clampU8 (float_or0 (a * 255)).

(** The four bytes written for the pixel [(x, y)]. *)
Definition energyPixel (x y : Z) : list Z :=
  let oa := outlineAlphaAt x y in
  match oa with
  | Some 0%Z => [0; 0; 0; 0]%Z
  | _ => [255; 255; 255; alphaByte (opacity oa x y)]%Z
  end.

(** [renderSaberEnergyMask(energyState, outlineObj, noiseState, tSec, opts)]:
    the new content of [energyState.data]. *)
Definition renderSaberEnergyMask : list Z :=
  flat_map (fun y => flat_map (fun x => energyPixel x y) (seqZ 0 w)) (seqZ 0 h).

End Pixel.

(** The working resolution of the energy effect, on doubles.
    [Math.max(0.7, Math.min(1, 520 / maxDim))] *)
Definition energyScale (maxDim : Z) : float :=
  float_max 0.7 (float_min 1 (520 / float_of_Z maxDim)).

(** [Math.max(1, Math.round(a * energyScale))] *)
Definition energyDim (a : Z) (scale : float) : option Z :=
  Z.max 1 <$> float_round (float_of_Z a * scale).

(** The edge [a] comes out as a number from 1 to 520. *)
Definition dimOK (scale : float) (a : Z) : bool :=
  match energyDim a scale with
  | Some k => (1 <=? k) && (k <=? 520)
  | None => false
  end.

(** [eW] and [eH] for a Plan of [w] by [h]. *)
Definition eW (w h : Z) : option Z := energyDim w (energyScale (Z.max w h)).

Definition eH (w h : Z) : option Z := energyDim h (energyScale (Z.max w h)).

End Energy.

(** ** The energy effect and its animation loop *)

Module EnergyLoop.

(** What the energy effect reads when it runs. *)
Record Env : Type := mkEnv {
hasFinal : bool;
total : Z;
CAP : Z;
finalBuffer : bool;      (* finalBufferRef.current *)
plan : bool;             (* plan *)
outlineData : bool;      (* energyOutlineMaskRef.current?.data *)
prefersReduced : bool;   (* matchMedia("(prefers-reduced-motion: reduce)").matches *)
surface : bool           (* canvasRef.current && frameRef.current *)
}.

(** The callbacks the effect hands to [requestAnimationFrame]. *)
Inductive Callback : Type :=
| tick.

(** The callback pending under the handle [rafEnergyRef.current], and the
    energy frames rendered so far, by time stamp, oldest first. *)
Record Loop : Type := mkLoop {
rafEnergy : option Callback;
frames : list Q
}.

Definition energyActive (e : Env) : bool := CAP e <=? total e.

(** [drawFrame(tNow)]: returns early without a canvas. *)
Definition drawFrame (e : Env) (tNow : Q) (l : Loop) : Loop :=
  if surface e then mkLoop (rafEnergy l) (frames l ++ [tNow]) else l.

Definition requestAnimationFrame (cb : Callback) (l : Loop) : Loop :=
  mkLoop (Some cb) (frames l).

Definition cancelAnimationFrame (l : Loop) : Loop :=
  mkLoop None (frames l).

(** The body of the energy effect, run at time [now]. *)
Definition energyEffect (e : Env) (now : Q) (l : Loop) : Loop :=
  let l := cancelAnimationFrame l in
  if negb (hasFinal e) || negb (energyActive e) || negb (finalBuffer e) || negb (plan e)
  then l
  else if negb (outlineData e) then l
  else if prefersReduced e then drawFrame e now l
  else requestAnimationFrame tick l.

(** Running a callback: [tick = (now) => { drawFrame(now); rafEnergyRef.current
    = requestAnimationFrame(tick) }]. *)
Definition call (e : Env) (cb : Callback) (now : Q) (l : Loop) : Loop :=
  match cb with
  | tick => requestAnimationFrame tick (drawFrame e now l)
  end.

(** One animation tick of the browser at time [now]: the pending callback,
    if any, is taken off the queue and run. *)
Definition animationFrame (e : Env) (now : Q) (l : Loop) : Loop :=
  match rafEnergy l with
  | Some cb => call e cb now (mkLoop None (frames l))
  | None => l
  end.

(** The animation ticks at the times [ts], in order. *)
Definition animationFrames (e : Env) (ts : list Q) (l : Loop) : Loop :=
  fold_left (fun l now => animationFrame e now l) ts l.

(** The energy phase is entered: the effect gets past its guards. *)
Definition entered (e : Env) : Prop :=
  hasFinal e = true /\ CAP e <= total e /\ finalBuffer e = true /\
  plan e = true /\ outlineData e = true.

End EnergyLoop.

(** ** Final stage: classification, composite, crossfade *)

Module FinalStage.
Import JS Num.

(** An item of [plan.items]. *)
Record Tile : Type := mkTile {
kind : string;
text : string;
x : Q;
y : Q;
size : Q;
color : option string
}.

Inductive Bucket : Type :=
| body
| hair
| headband
| beak
| feet.

(** The closure [insideFactory(maskCanvas)] returns. *)
Definition insideFactory (maskCanvas : ImageData) (x y : Q) : bool :=
  let xi := Z.max 0 (Z.min (width maskCanvas - 1) (Math_round x)) in
  let yi := Z.max 0 (Z.min (height maskCanvas - 1) (Math_round y)) in
  match js_get (data maskCanvas) ((yi * width maskCanvas + xi) * 4 + 3) with
  | Some a => 0 <? a
  | None => false
  end.

(** The feature masks of the final stage; [headbandMask] is [null] when the
    headband is not active. *)
Record Masks : Type := mkMasks {
hairMask : ImageData;
headbandMask : option ImageData;
beakMask : ImageData;
feetMask : ImageData
}.

(** [inHeadband]: [null] unless the headband is active and has a mask. *)
Definition inHeadband (headbandActive : bool) (m : Masks) : option (Q -> Q -> bool) :=
  if headbandActive
  then match headbandMask m with
       | Some hm => Some (insideFactory hm)
       | None => None
       end
  else None.

(** The bucket the loop over [items] picks for a text tile. *)
Definition bucketOf (headbandActive : bool) (m : Masks) (it : Tile) : Bucket :=
  if insideFactory (hairMask m) (x it) (y it) then hair
  else if headbandActive &&
          match inHeadband headbandActive m with
          | Some f => f (x it) (y it)
          | None => false
          end
  then headband
  else if insideFactory (beakMask m) (x it) (y it) then beak
  else if insideFactory (feetMask m) (x it) (y it) then feet
  else body.

(** The [fillText] calls of the loop, in order: the layer and the tile. *)
Fixpoint drawNames (headbandActive : bool) (m : Masks) (items : list Tile)
    : list (Bucket * Tile) :=
  match items with
  | [] => []
  | it :: items =>
      if String.eqb (kind it) "text"
      then (bucketOf headbandActive m it, it) :: drawNames headbandActive m items
      else drawNames headbandActive m items
  end.

(** The classification as the specification words it: the tests in a fixed
    order of priority, the first match wins, body when none does. *)
Fixpoint firstMatch (tests : list (Bucket * bool)) : Bucket :=
  match tests with
  | [] => body
  | (b, true) :: _ => b
  | (_, false) :: tests => firstMatch tests
  end.

Definition inMask (mask : ImageData) (it : Tile) : bool :=
  insideFactory mask (x it) (y it).

Definition classifySpec (headbandActive : bool) (m : Masks) (it : Tile) : Bucket :=
  firstMatch
    ([(hair, inMask (hairMask m) it)]
     ++ (if headbandActive
         then match headbandMask m with
              | Some hm => [(headband, inMask hm it)]
              | None => []
              end
         else [])
     ++ [(beak, inMask (beakMask m) it); (feet, inMask (feetMask m) it)]).

(** *** The composite *)

(** What the final stage reads of the plan. *)
Record Plan : Type := mkPlan {
isPreview : bool;
unlockHeadbandTails : option bool;
items : list Tile
}.

(** A drawing pass onto the final buffer [fctx]. *)
Inductive Pass : Type :=
| MaskFill (mask : string) (rgb : Z * Z * Z) (alpha : Q) (shadowBlur : Z)
| LayerNeon (layer : Bucket) (mask : string) (intensity : Q).

(** [drawMaskFill1x(fctx, mask, rgb, alpha)] under the given [shadowBlur]:
    nothing without a mask or with [alpha <= 0]. *)
Definition drawMaskFill1x (present : bool) (mask : string) (rgb : Z * Z * Z)
    (alpha : Q) (shadowBlur : Z) : list Pass :=
  if negb present || Qle_bool alpha 0 then []
  else [MaskFill mask rgb alpha shadowBlur].

(** The static outline glow pass. *)
Definition outlineGlow : Pass := MaskFill "outlineMask" (255, 255, 255) 0.95 18.

Definition headbandActive (p : Plan) (total : Z) : bool :=
  match unlockHeadbandTails p with
  | Some b => b
  | None => 1500 <=? total
  end.

Definition need (hb : bool) : list string :=
  ["silhouette"; "hair"] ++ (if hb then ["headband"] else [])
  ++ ["beak"; "feet"; "eyes"; "pupils"; "nostrils"].

Definition loaded (maskBitmaps : gmap string ImageData) (k : string) : bool :=
  bool_decide (is_Some (maskBitmaps !! k)).

(** The passes the final stage draws into the final buffer; [None] when the
    effect returns before composing. *)
Definition finalComposite (p : option Plan) (maskBitmaps : gmap string ImageData)
    (total CAP : Z) : option (list Pass) :=
  match p with
  | None => None
  | Some p =>
      if isPreview p then None
      else
        let hb := headbandActive p total in
        if negb (forallb (loaded maskBitmaps) (need hb)) then None
        else
          let energyActive := CAP <=? total in
          let outlineMask := loaded maskBitmaps "outline" in
          let detailsAlpha := Qmax 0 (Qmin 1 (inject_Z total / 1000)%Q) in
          Some (drawMaskFill1x true "silMask" (255, 255, 255) 0.12 0
                ++ (if hb then drawMaskFill1x true "headbandMask" (255, 60, 90) 0.14 26 else [])
                ++ [LayerNeon body "bodyMask" 1.05;
                    LayerNeon beak "beakMask" 0.95;
                    LayerNeon feet "feetMask" 0.95]
                ++ (if hb then [LayerNeon headband "headbandMask" 1.0] else [])
                ++ [LayerNeon hair "hairMask" 0.95]
                ++ (if outlineMask && negb energyActive
                    then drawMaskFill1x outlineMask "outlineMask" (255, 255, 255) 0.95 18
                    else [])
                ++ drawMaskFill1x true "eyesMaskTop" (255, 255, 255) 1 0
                ++ drawMaskFill1x true "eyesMaskRaw" (255, 255, 255) 1 0
                ++ drawMaskFill1x true "pupilsMask" (17, 24, 39) detailsAlpha 0
                ++ drawMaskFill1x true "nostrilsMask" (17, 24, 39) detailsAlpha 0)
  end.

(** The bitmaps when every image loaded but the outline. *)
Definition noOutline : gmap string ImageData :=
  list_to_map
    (map (fun k => (k, mkImageData 1 1 [255; 255; 255; 255]))
       ["silhouette"; "hair"; "headband"; "beak"; "feet"; "eyes"; "pupils"; "nostrils"]).

(** *** The crossfade *)

(** A pixel of the visible canvas: premultiplied colour and alpha. *)
Record Pixel : Type := mkPixel {
pr : Q;
pg : Q;
pb : Q;
pa : Q
}.

Definition transparent : Pixel := mkPixel 0 0 0 0.

(** [ctx.drawImage] of one source pixel over a destination pixel under
    [globalAlpha], in the default source-over mode. *)
Definition drawPixel (globalAlpha : Q) (src dst : Pixel) : Pixel :=
  let k := (1 - pa src * globalAlpha)%Q in
  mkPixel (pr src * globalAlpha + pr dst * k)%Q
          (pg src * globalAlpha + pg dst * k)%Q
          (pb src * globalAlpha + pb dst * k)%Q
          (pa src * globalAlpha + pa dst * k)%Q.

Definition DURATION : Q := 380.

(** [t = Math.min(1, (performance.now() - start) / DURATION)] *)
Definition fadeT (elapsed : Q) : Q := Qmin 1 (elapsed / DURATION)%Q.

(** [ctx.globalAlpha = 1 - t * t] for the preview buffer. *)
Definition alphaOut (elapsed : Q) : Q := (1 - fadeT elapsed * fadeT elapsed)%Q.

(** [ctx.globalAlpha = t * t] for the final buffer. *)
Definition alphaIn (elapsed : Q) : Q := (fadeT elapsed * fadeT elapsed)%Q.



(** A buffer as the visible canvas shows it, scaled to the canvas: its
    pixels in row-major order. [ctx.clearRect(0, 0, cssW, cssH)]: *)
Definition clearRect (n : nat) : list Pixel := replicate n transparent.

(** [ctx.drawImage(buf, 0, 0, cssW, cssH)] under [globalAlpha]. *)
Definition drawImage (globalAlpha : Q) (buf canvas : list Pixel) : list Pixel :=
  zip_with (drawPixel globalAlpha) buf canvas.

(** The frame [fade] paints: the canvas is cleared, then [from] and [final]
    are drawn under the two alphas. *)
Definition fadeFrame (elapsed : Q) (from final : list Pixel) : list Pixel :=
  drawImage (alphaIn elapsed) final
    (drawImage (alphaOut elapsed) from (clearRect (length from))).

(** [blitBufferToVisible(buf)] *)
Definition blitBufferToVisible (buf : list Pixel) : list Pixel :=
  drawImage 1 buf (clearRect (length buf)).




End FinalStage.

(** ** The commit that starts the crossfade *)

Module Transition.
Import EnergyLoop FinalStage.

(** The effects of a commit run in the order of their declaration: the
    final stage, which stores the final buffer in [finalBufferRef] and ends
    with the first call of [fade()], comes before the energy effect. The
    energy effect runs in that commit only if one of its dependencies
    [hasFinal], [total], [CAP], [plan] changed ([energyRuns]); the final
    stage also runs when only [maskBitmaps] changed. Stopped by its first
    guard the energy effect calls [blitBufferToVisible(finalBufferRef.current
    || previewBufferRef.current)]; stopped by the second it paints nothing;
    under reduced motion it paints an energy frame at once, otherwise it
    only requests one.

    What the canvas shows when the effects of the commit are done, for a
    mounted canvas and [elapsed] ms between [start] and the first [fade()];
    [None] is an energy frame. *)
Definition afterCommit (energyRuns : bool) (e : Env) (from final : list Pixel)
    (elapsed : Q) : option (list Pixel) :=
  let shown := fadeFrame elapsed from final in
  if negb energyRuns then Some shown
  else if negb (hasFinal e) || negb (energyActive e) || negb (finalBuffer e)
          || negb (plan e)
  then Some (blitBufferToVisible (if finalBuffer e then final else from))
  else if negb (outlineData e) then Some shown
  else if prefersReduced e then None
  else Some shown.

End Transition.

(** ** Canvases as alpha stencils *)

Module Stencil.

(** The part of the 2D canvas the mask pipeline relies on: a canvas has a
    size and an alpha in every pixel. [drawImage src dx dy dst] is
    [dst.getContext("2d").drawImage(src, dx, dy)] in the default source-over
    mode, [drawImageOut src dst] the same call at (0, 0) under
    [globalCompositeOperation = "destination-out"]. *)
Record Canvas2D : Type := mkCanvas2D {
canvas : Type;
cwidth : canvas -> Z;
cheight : canvas -> Z;
alphaAt : canvas -> Z -> Z -> Q;
createCanvas : Z -> Z -> canvas;
drawImage : canvas -> Z -> Z -> canvas -> canvas;
drawImageOut : canvas -> canvas -> canvas
}.

Definition inside (C : Canvas2D) (c : canvas C) (x y : Z) : Prop :=
  0 <= x < cwidth C c /\ 0 <= y < cheight C c.

Definition unit (a : Q) : Prop := (0 <= a <= 1)%Q.

(** What the pipeline needs of the compositing rules, on alpha. A new
    canvas is transparent and drawing keeps the size of the destination.
    Source-over never lowers alpha below the source or the destination,
    copies the other one where one of them is transparent, and lights no
    pixel that both leave dark. Destination-out never raises alpha, keeps
    it under a transparent source and clears it under an opaque one. Both
    the exact rules [s + d (1 - s)] and [d (1 - s)] and their 8-bit
    roundings satisfy this. *)
Record lawful (C : Canvas2D) : Prop := mkLawful {
create_width : forall w h, cwidth C (createCanvas C w h) = w;
create_height : forall w h, cheight C (createCanvas C w h) = h;
create_alpha : forall w h x y, (alphaAt C (createCanvas C w h) x y == 0)%Q;
draw_width : forall s dx dy d, cwidth C (drawImage C s dx dy d) = cwidth C d;
draw_height : forall s dx dy d, cheight C (drawImage C s dx dy d) = cheight C d;
draw_alpha : forall s dx dy d x y,
  inside C d x y ->
  unit (alphaAt C s (x - dx) (y - dy)) -> unit (alphaAt C d x y) ->
  (alphaAt C s (x - dx) (y - dy) <= alphaAt C (drawImage C s dx dy d) x y)%Q /\
  (alphaAt C d x y <= alphaAt C (drawImage C s dx dy d) x y)%Q /\
  (alphaAt C (drawImage C s dx dy d) x y <= 1)%Q /\
  ((0 < alphaAt C (drawImage C s dx dy d) x y)%Q ->
   (0 < alphaAt C s (x - dx) (y - dy))%Q \/ (0 < alphaAt C d x y)%Q) /\
  ((alphaAt C d x y == 0)%Q ->
   (alphaAt C (drawImage C s dx dy d) x y == alphaAt C s (x - dx) (y - dy))%Q) /\
  ((alphaAt C s (x - dx) (y - dy) == 0)%Q ->
   (alphaAt C (drawImage C s dx dy d) x y == alphaAt C d x y)%Q);
out_width : forall s d, cwidth C (drawImageOut C s d) = cwidth C d;
out_height : forall s d, cheight C (drawImageOut C s d) = cheight C d;
out_alpha : forall s d x y,
  inside C d x y -> unit (alphaAt C s x y) -> unit (alphaAt C d x y) ->
  (0 <= alphaAt C (drawImageOut C s d) x y <= alphaAt C d x y)%Q /\
  ((alphaAt C s x y == 0)%Q ->
   (alphaAt C (drawImageOut C s d) x y == alphaAt C d x y)%Q) /\
  ((alphaAt C s x y == 1)%Q -> (alphaAt C (drawImageOut C s d) x y == 0)%Q)
}.

(** The offsets of the two loops [for (dy = -radius; dy <= radius; dy++)
    for (dx = -radius; dx <= radius; dx++)], in the order they run. *)
Definition dilateOffsets (radius : Z) : list (Z * Z) :=
  flat_map (fun dy => map (fun dx => (dx, dy)) (seqZ (- radius) (2 * radius + 1)))
    (seqZ (- radius) (2 * radius + 1)).

(** [dilateAlphaMask1x(maskCanvas, radius)] for an integer radius; [None]
    is [null]. *)
Definition dilateAlphaMask1x (C : Canvas2D) (maskCanvas : option (canvas C))
    (radius : Z) : option (canvas C) :=
  match maskCanvas with
  | None => None
  | Some m =>
      if radius <=? 0 then Some m
      else Some (fold_left (fun out '(dx, dy) => drawImage C m dx dy out)
                   (dilateOffsets radius)
                   (createCanvas C (cwidth C m) (cheight C m)))
  end.

(** The list [makeBodyMask] loops over:
    [[hairMask, ...(headbandActive && headbandMask ? [headbandMask] : []),
      beakMask, feetMask, eyesMask]]. *)
Definition bodyFeatures (C : Canvas2D) (headbandActive : bool)
    (hairMask : canvas C) (headbandMask : option (canvas C))
    (beakMask feetMask eyesMask : canvas C) : list (canvas C) :=
  [hairMask]
  ++ (if headbandActive
      then match headbandMask with Some hm => [hm] | None => [] end
      else [])
  ++ [beakMask; feetMask; eyesMask].

(** [makeBodyMask()]: the silhouette drawn on a new canvas of its size, then
    each feature mask drawn under destination-out. *)
Definition makeBodyMask (C : Canvas2D) (silMask : canvas C) (headbandActive : bool)
    (hairMask : canvas C) (headbandMask : option (canvas C))
    (beakMask feetMask eyesMask : canvas C) : canvas C :=
  fold_left (fun base m => drawImageOut C m base)
    (bodyFeatures C headbandActive hairMask headbandMask beakMask feetMask eyesMask)
    (drawImage C silMask 0 0
       (createCanvas C (cwidth C silMask) (cheight C silMask))).

(** A canvas given by its size and the alpha of each pixel, composited by
    the exact rules. *)
Definition gridCanvas : Canvas2D :=
  {| canvas := Z * Z * (Z -> Z -> Q);
     cwidth := fun c => fst (fst c);
     cheight := fun c => snd (fst c);
     alphaAt := fun c => snd c;
     createCanvas := fun w h => (w, h, fun _ _ => 0%Q);
     drawImage := fun s dx dy d =>
       (fst d, fun x y : Z => (snd s (x - dx)%Z (y - dy)%Z
                               + snd d x y * (1 - snd s (x - dx)%Z (y - dy)%Z))%Q);
     drawImageOut := fun s d =>
       (fst d, fun x y : Z => (snd d x y * (1 - snd s x y))%Q) |}.

(** A [w] x [h] canvas that is opaque in the pixel (px, py) only. *)
Definition dot (w h px py : Z) : canvas gridCanvas :=
  (w, h, fun x y => if (x =? px) && (y =? py) then 1%Q else 0%Q).

End Stencil.

(** ** Preview stage: batched drawing *)

Module Preview.
Import FinalStage.

(** [Math.min(2000, items.length)], for [items] the text items of the plan. *)
Definition PREVIEW_DRAW_MAX (items : list Tile) : nat := Nat.min 2000 (length items).

(** [Math.max(120, Math.floor(PREVIEW_DRAW_MAX / 10))] *)
Definition BATCH (items : list Tile) : nat :=
  Nat.max 120 (PREVIEW_DRAW_MAX items / 10).

(** [while (i < PREVIEW_DRAW_MAX && drawn < BATCH) { items[i++] ...; drawn++ }]
    with [todo = BATCH - drawn] rounds left: the tiles drawn and the new [i].
    Reading [it.size] of a missing item throws, which ends the loop. *)
Fixpoint whileDraw (items : list Tile) (todo i : nat) : list Tile * nat :=
  match todo with
  | O => ([], i)
  | S todo =>
      if (i <? PREVIEW_DRAW_MAX items)%nat
      then match items !! i with
           | Some it =>
               let '(ts, i') := whileDraw items todo (S i) in (it :: ts, i')
           | None => ([], i)
           end
      else ([], i)
  end.

(** The preview effect between frames: the index [i], the tiles on the text
    layer, the number of times [step] has run, and whether [step] is
    scheduled for the next animation frame. *)
Record State : Type := mkState {
next : nat;
textLayer : list Tile;
steps : nat;
pending : bool
}.

(** [step()]: one batch of tiles, then the composite, which it stores as
    the preview buffer and blits. *)
Definition step (items : list Tile) (st : State) : State :=
  let '(ts, i') := whileDraw items (BATCH items) (next st) in
  mkState i' (textLayer st ++ ts) (S (steps st)) (i' <? PREVIEW_DRAW_MAX items)%nat.

(** One animation frame: [step] runs when it was scheduled. *)
Definition previewFrame (items : list Tile) (st : State) : State :=
  if pending st then step items st else st.

(** The effect, once past its guard, calls [step()] at once; then [frames]
    animation frames pass. *)
Definition previewStage (items : list Tile) (frames : nat) : State :=
  Nat.iter frames (previewFrame items) (step items (mkState 0 [] 0 false)).

End Preview.

(** ** Loading the plans *)

Module Fetch.

(** [Math.min(CAP, totalSubs || 0)] *)
Definition FULL_LIMIT (CAP totalSubs : Z) : Z := Z.min CAP totalSubs.

(** [Math.min(1800, FULL_LIMIT)] *)
Definition PREVIEW_LIMIT (CAP totalSubs : Z) : Z := Z.min 1800 (FULL_LIMIT CAP totalSubs).

(** The limit of the preview request [getSlots(PREVIEW_LIMIT, "oldest")],
    [null] when none is made. *)
Definition previewRequest (CAP totalSubs : Z) : option Z :=
  if 0 <? PREVIEW_LIMIT CAP totalSubs then Some (PREVIEW_LIMIT CAP totalSubs) else None.

(** The limit of the full request, [null] when none is made. *)
Definition fullRequest (CAP totalSubs : Z) : option Z :=
  if PREVIEW_LIMIT CAP totalSubs <? FULL_LIMIT CAP totalSubs
  then Some (FULL_LIMIT CAP totalSubs) else None.

(** The branch [else if (previewPromise)]: the preview plan is promoted to
    the full plan. *)
Definition promotesPreview (CAP totalSubs : Z) : bool :=
  match fullRequest CAP totalSubs, previewRequest CAP totalSubs with
  | None, Some _ => true
  | _, _ => false
  end.

End Fetch.

(** ** Search hits *)

Module Search.

(** [hits.length ? (i - 1 + hits.length) % hits.length : 0]; [%] is the
    remainder with the sign of the dividend. *)
Definition prevHit (len i : Z) : Z :=
  if len =? 0 then 0 else Z.rem (i - 1 + len) len.

(** [hits.length ? (i + 1) % hits.length : 0] *)
Definition nextHit (len i : Z) : Z :=
  if len =? 0 then 0 else Z.rem (i + 1) len.

(** [Math.min(hitIndex, hits.length - 1)], the index the overlay reads. *)
Definition shownHit (len hitIndex : Z) : Z := Z.min hitIndex (len - 1).

(** The code unit of the ellipsis. *)
Definition ellipsis : Z := 8230.

(** [t.endsWith("…")] on a string as its UTF-16 code units. *)
Definition endsWithEllipsis (t : list Z) : bool :=
  match last t with
  | Some c => c =? ellipsis
  | None => false
  end.

(** [stripEllipsis(s)]: [t.endsWith("…") ? t.slice(0, -1) : t] *)
Definition stripEllipsis (t : list Z) : list Z :=
  if endsWithEllipsis t then take (length t - 1) t else t.

End Search.

(** ** The plan cache *)

Module Cache.

Definition CACHE_KEY : string := "psyduck:lastPlan:v3".

(** [30 * 60 * 1000] *)
Definition CACHE_TTL_MS : Z := 30 * 60 * 1000.

(** What [JSON.parse] makes of a stored string: it throws, or gives a value
    with or without a number [cachedAt] and an object [plan]. *)
Inductive Stored (P : Type) : Type :=
| Unparsable
| Parsed (cachedAt : option Z) (plan : option P).
Arguments Unparsable {P}.
Arguments Parsed {P}.

(** [readCachedPlan()] at the time [now] *)
Definition readCachedPlan {P : Type} (localStorage : gmap string (Stored P)) (now : Z)
    : option P :=
  match localStorage !! CACHE_KEY with
  | None => None
  | Some Unparsable => None
  | Some (Parsed None _) => None
  | Some (Parsed (Some cachedAt) plan) =>
      if cachedAt =? 0 then None
      else if CACHE_TTL_MS <? now - cachedAt then None
      else plan
  end.

(** [writeCachedPlan(plan)] at the time [now]; [setItem] may throw, which
    is swallowed: [stored] tells whether it went through. *)
Definition writeCachedPlan {P : Type} (stored : bool)
    (localStorage : gmap string (Stored P)) (now : Z) (plan : P)
    : gmap string (Stored P) :=
  if stored then <[CACHE_KEY := Parsed (Some now) (Some plan)]> localStorage
  else localStorage.

End Cache.

(* ===================================================================== *)
(** * Theorems *)
(* ===================================================================== *)

(** ** Numbers *)

Section NumberFacts.
Import JS Num.

Lemma ToInt32_small z : - two31 <= z < two31 -> ToInt32 z = z.
Proof.
  unfold ToInt32, two31, two32. intros H.
  destruct (Z.ltb_spec (z mod 4294967296) 2147483648);
    Z.div_mod_to_equations; lia.
Qed.

Lemma ToUint32_range z : 0 <= ToUint32 z < two32.
Proof. unfold ToUint32, two32. apply Z.mod_pos_bound. lia. Qed.

Lemma ushr_0 z : ushr z 0 = ToUint32 z.
Proof. unfold ushr. change (0 mod 32) with 0. apply Z.shiftr_0_r. Qed.

Lemma clampU8_range z : 0 <= clampU8 z <= 255.
Proof. unfold clampU8. lia. Qed.

Lemma clampU8_id z : 0 <= z <= 255 -> clampU8 z = z.
Proof. unfold clampU8. lia. Qed.

Lemma Qltb_lt q r : Qltb q r = true <-> (q < r)%Q.
Proof.
  unfold Qltb. rewrite negb_true_iff, <- not_true_iff_false, Qle_bool_iff.
  split; [apply Qnot_le_lt | apply Qlt_not_le].
Qed.

Lemma Qltb_ge q r : Qltb q r = false <-> (r <= q)%Q.
Proof. unfold Qltb. rewrite negb_false_iff. apply Qle_bool_iff. Qed.

Lemma Qle_bool_gt q r : Qle_bool q r = false <-> (r < q)%Q.
Proof.
  rewrite <- not_true_iff_false, Qle_bool_iff.
  split; [apply Qnot_le_lt | apply Qlt_not_le].
Qed.

Lemma Qfloor_lb z q : (inject_Z z <= q)%Q -> z <= Qfloor q.
Proof. intros H. rewrite <- (Qfloor_Z z). now apply Qfloor_resp_le. Qed.

Lemma Qfloor_ub z q : (q < inject_Z z)%Q -> Qfloor q < z.
Proof.
  intros H. rewrite Zlt_Qlt.
  eapply Qle_lt_trans; [apply Qfloor_le | exact H].
Qed.

Lemma Qfloor_le_Z z q : (q <= inject_Z z)%Q -> Qfloor q <= z.
Proof. intros H. rewrite <- (Qfloor_Z z). now apply Qfloor_resp_le. Qed.

Lemma Qtrunc_nonneg q : (0 <= q)%Q -> Qtrunc q = Qfloor q.
Proof. intros H. unfold Qtrunc. apply Qle_bool_iff in H. now rewrite H. Qed.

Lemma Qmax_cases q r :
  ((q <= r)%Q /\ Qmax q r = r) \/ ((r < q)%Q /\ Qmax q r = q).
Proof.
  unfold Qmax. destruct (Qle_bool q r) eqn:E.
  - left. split; [now apply Qle_bool_iff | reflexivity].
  - right. split; [now apply Qle_bool_gt | reflexivity].
Qed.

Lemma Qmin_cases q r :
  ((q <= r)%Q /\ Qmin q r = q) \/ ((r < q)%Q /\ Qmin q r = r).
Proof.
  unfold Qmin. destruct (Qle_bool q r) eqn:E.
  - left. split; [now apply Qle_bool_iff | reflexivity].
  - right. split; [now apply Qle_bool_gt | reflexivity].
Qed.

Lemma Math_round_le z q : (q <= inject_Z z)%Q -> Math_round q <= z.
Proof.
  intros H. unfold Math_round.
  enough (Qfloor (q + (1 # 2)) < z + 1) by lia.
  apply Qfloor_ub. rewrite inject_Z_plus. change (inject_Z 1) with 1%Q. lra.
Qed.

Lemma Math_round_ge z q : (inject_Z z <= q)%Q -> z <= Math_round q.
Proof. intros H. unfold Math_round. apply Qfloor_lb. lra. Qed.

Lemma Math_round_Z z : Math_round (inject_Z z) = z.
Proof.
  apply Z.le_antisymm; [apply Math_round_le | apply Math_round_ge]; apply Qle_refl.
Qed.

End NumberFacts.

(** ** Mask pipeline *)

Section MaskPipelineFacts.
Import JS MaskPipeline.

Lemma lum_white : lum 255 255 255 = 254.
Proof. vm_compute. reflexivity. Qed.

Lemma lum_black : lum 0 0 0 = 0.
Proof. vm_compute. reflexivity. Qed.

(** What the claim has right: every pixel keeps no colour, and its alpha
    is 0 up to the threshold and the truncated luminance above it. *)
Lemma alphaMaskData_pixel (threshold r g b a : Z) (rest : list Z) :
  alphaMaskData threshold (r :: g :: b :: a :: rest)
  = 0 :: 0 :: 0 :: clampU8 (if lum r g b <=? threshold then 0 else lum r g b)
      :: alphaMaskData threshold rest.
Proof. reflexivity. Qed.

Lemma alphaMask_black_is_0 (n : nat) (w h : Z) :
  data (bitmapToAlphaMaskCanvas (mkImageData w h (solid n 0 0 0 255)) 0)
  = solid n 0 0 0 0.
Proof.
  unfold bitmapToAlphaMaskCanvas; simpl.
  induction n as [|n IH]; [reflexivity|].
  cbn [solid alphaMaskData]. rewrite IH.
  unfold alpha_of. rewrite lum_black. reflexivity.
Qed.

(** C5. An all-white source of any size, with threshold 0, comes out of
    [bitmapToAlphaMaskCanvas] with the colour channels zeroed and alpha
    254 at every pixel, not 255: in binary64 the weighted sum
    0.2126*255 + 0.7152*255 + 0.0722*255 is 254.99999999999997, which
    [| 0] truncates. *)
Theorem alphaMask_white_is_254 (n : nat) (w h : Z) :
  data (bitmapToAlphaMaskCanvas (mkImageData w h (solid n 255 255 255 255)) 0)
  = solid n 0 0 0 254.
Proof.
  unfold bitmapToAlphaMaskCanvas; simpl.
  induction n as [|n IH]; [reflexivity|].
  cbn [solid alphaMaskData]. rewrite IH.
  unfold alpha_of. rewrite lum_white. reflexivity.
Qed.

End MaskPipelineFacts.

Section NoiseFacts.
Import JS Num Noise.

Lemma hash2i_bits_range x y seed : 0 <= hash2i_bits x y seed <= 4294967295.
Proof.
  unfold hash2i_bits. rewrite ushr_0.
  match goal with |- context [ToUint32 ?a] => pose proof (ToUint32_range a) end.
  unfold two32 in *. lia.
Qed.

Lemma hash2i_unit x y seed : (0 <= hash2i x y seed <= 1)%Q.
Proof.
  unfold hash2i. pose proof (hash2i_bits_range x y seed) as [Hlo Hhi].
  set (n := hash2i_bits x y seed) in *.
  split.
  - apply Qle_shift_div_l; [reflexivity|].
    rewrite Qmult_0_l. change 0%Q with (inject_Z 0). rewrite <- Zle_Qle. exact Hlo.
  - apply Qle_shift_div_r; [reflexivity|].
    rewrite Qmult_1_l. change 4294967295%Q with (inject_Z 4294967295).
    rewrite <- Zle_Qle. exact Hhi.
Qed.

Example hash2i_bits_all_ones : hash2i_bits 1624197535 0 1337 = 4294967295.
Proof. vm_compute. reflexivity. Qed.

End NoiseFacts.

Section HashClaims.
Import JS Num Noise.

Lemma ToInt32_idem z : ToInt32 (ToInt32 z) = ToInt32 z.
Proof.
  apply ToInt32_small. unfold ToInt32, two31, two32.
  destruct (Z.ltb_spec (z mod 4294967296) 2147483648);
    Z.div_mod_to_equations; lia.
Qed.

(** The hash depends on its arguments through their low 32 bits only. *)
Lemma hash2i_low_bits (x y seed : Z) :
  hash2i x y seed = hash2i (ToInt32 x) (ToInt32 y) (ToInt32 seed).
Proof.
  unfold hash2i, hash2i_bits, xor. now rewrite !ToInt32_idem.
Qed.

(** C6, as stated, fails: with the default seed 1337 the integer
    coordinates (1624197535, 0) mix to [n = 4294967295], and [hash2i]
    returns [n / 4294967295 = 1], outside the half-open interval. *)
Lemma hash2i_reaches_one : ~ (0 <= hash2i 1624197535 0 1337 < 1)%Q.
Proof. intros [_ H]. revert H. vm_compute. discriminate. Qed.

(** C6, amended: [hash2i] is a function of its three arguments alone, so
    equal inputs give equal outputs, and its result lies in the closed
    interval from 0 to 1. *)
Theorem hash2i_deterministic_closed_unit (x y seed x' y' seed' : Z) :
  x = x' -> y = y' -> seed = seed' ->
  hash2i x y seed = hash2i x' y' seed' /\ (0 <= hash2i x y seed <= 1)%Q.
Proof.
  intros -> -> ->. split; [reflexivity | apply hash2i_unit].
Qed.

Lemma hash2i_deterministic_closed_unit_witness :
  hash2i 12 (-7) 1337 = hash2i 12 (-7) 1337 /\ (0 <= hash2i 12 (-7) 1337 <= 1)%Q.
Proof.
  apply (hash2i_deterministic_closed_unit 12 (-7) 1337 12 (-7) 1337); reflexivity.
Defined.

End HashClaims.

(** ** Outline sampling *)

Section OutlineSampling.
Import JS Num Sampling.

Lemma or0_in_range (q : Q) (n : Z) :
  0 < n <= two31 -> (0 <= q)%Q -> (q <= inject_Z (n - 1))%Q ->
  0 <= Qor0 q <= n - 1.
Proof.
  intros Hn H0 Hq. unfold Qor0. rewrite Qtrunc_nonneg by exact H0.
  assert (0 <= Qfloor q) by (apply Qfloor_lb; exact H0).
  assert (Qfloor q <= n - 1) by (apply Qfloor_le_Z; exact Hq).
  rewrite ToInt32_small; unfold two31 in *; lia.
Qed.

Lemma clampIndex_range (x : number) (n : Z) :
  0 < n <= two31 -> 0 <= clampIndex x n <= n - 1.
Proof.
  intros Hn. unfold clampIndex.
  destruct x as [| | |q]; cbn [ltZ gtZ or0]; try lia.
  destruct (Qltb q (inject_Z 0)) eqn:E0; [lia|].
  destruct (Qltb (inject_Z (n - 1)) q) eqn:E1; [lia|].
  apply Qltb_ge in E0, E1. now apply or0_in_range.
Qed.

Lemma js_get_in_range (d : list Z) (i : Z) :
  0 <= i < Z.of_nat (length d) -> js_get d i = d !! Z.to_nat i /\ is_Some (js_get d i).
Proof.
  intros H. unfold js_get.
  destruct (Z.ltb_spec i 0); [lia|].
  split; [reflexivity|]. apply lookup_lt_is_Some. lia.
Qed.

Lemma pixel_index_range (xi yi w h c : Z) :
  0 <= xi <= w - 1 -> 0 <= yi <= h - 1 -> 0 <= c <= 3 ->
  0 <= (yi * w + xi) * 4 + c < 4 * w * h.
Proof. intros. nia. Qed.

(** C9. For every coordinate pair, NaN and the infinities included, and
    every outline buffer of [outW] by [outH] pixels, the two indices are
    clamped into [0, outW - 1] and [0, outH - 1], and the read lands on the
    alpha byte of that pixel, inside the buffer. *)
Theorem sampleOutlineAlphaNearest_in_bounds
    (outData : list Z) (outW outH : Z) (x y : number) :
  0 < outW <= two31 -> 0 < outH <= two31 ->
  Z.of_nat (length outData) = 4 * outW * outH ->
  let xi := clampIndex x outW in
  let yi := clampIndex y outH in
  0 <= xi <= outW - 1 /\ 0 <= yi <= outH - 1 /\
  0 <= (yi * outW + xi) * 4 + 3 < Z.of_nat (length outData) /\
  sampleOutlineAlphaNearest outData outW outH x y
    = outData !! Z.to_nat ((yi * outW + xi) * 4 + 3) /\
  is_Some (sampleOutlineAlphaNearest outData outW outH x y).
Proof.
  intros HW HH Hlen xi yi.
  pose proof (clampIndex_range x outW HW) as Hx.
  pose proof (clampIndex_range y outH HH) as Hy.
  fold xi in Hx. fold yi in Hy.
  assert (Hi : 0 <= (yi * outW + xi) * 4 + 3 < Z.of_nat (length outData)).
  { rewrite Hlen. apply pixel_index_range; lia. }
  repeat split; try lia; unfold sampleOutlineAlphaNearest; fold xi yi;
    apply js_get_in_range; exact Hi.
Qed.

Lemma sampleOutlineAlphaNearest_in_bounds_witness :
  let outData := [0; 0; 0; 10; 0; 0; 0; 20; 0; 0; 0; 30; 0; 0; 0; 40] in
  let xi := clampIndex (Num (-3.5)) 2 in
  let yi := clampIndex (Num 7.25) 2 in
  0 <= xi <= 2 - 1 /\ 0 <= yi <= 2 - 1 /\
  0 <= (yi * 2 + xi) * 4 + 3 < Z.of_nat (length outData) /\
  sampleOutlineAlphaNearest outData 2 2 (Num (-3.5)) (Num 7.25)
    = outData !! Z.to_nat ((yi * 2 + xi) * 4 + 3) /\
  is_Some (sampleOutlineAlphaNearest outData 2 2 (Num (-3.5)) (Num 7.25)).
Proof.
  apply (sampleOutlineAlphaNearest_in_bounds
           [0; 0; 0; 10; 0; 0; 0; 20; 0; 0; 0; 30; 0; 0; 0; 40] 2 2
           (Num (-3.5)) (Num 7.25)).
  - unfold two31; lia.
  - unfold two31; lia.
  - reflexivity.
Defined.

Example sampleOutline_examples :
  let d := [0; 0; 0; 10; 0; 0; 0; 20; 0; 0; 0; 30; 0; 0; 0; 40] in
  sampleOutlineAlphaNearest d 2 2 (Num (-3.5)) (Num 7.25) = Some 30 /\
  sampleOutlineAlphaNearest d 2 2 NaN PosInf = Some 30 /\
  sampleOutlineAlphaNearest d 2 2 (Num 0.9) (Num 0.2) = Some 10 /\
  sampleOutlineAlphaNearest d 2 2 (Num 1) NegInf = Some 20.
Proof. repeat split; reflexivity. Qed.

End OutlineSampling.

(** ** The crossfade *)

Section Crossfade.
Import JS Num FinalStage.

Lemma fadeT_cases (elapsed : Q) :
  ((elapsed < 380)%Q /\ fadeT elapsed == (elapsed / 380)%Q) \/
  ((380 <= elapsed)%Q /\ fadeT elapsed = 1%Q).
Proof.
  unfold fadeT, DURATION.
  destruct (Qmin_cases 1 (elapsed / 380)) as [[H E]|[H E]]; rewrite E.
  - right. split; [|reflexivity].
    apply (Qmult_le_r _ _ 380) in H; [|reflexivity].
    unfold Qdiv in H. rewrite <- Qmult_assoc, (Qmult_comm (/ 380)), Qmult_inv_r in H
      by discriminate. lra.
  - left. split; [|reflexivity].
    apply (Qmult_lt_r _ _ 380) in H; [|reflexivity].
    unfold Qdiv in H. rewrite <- Qmult_assoc, (Qmult_comm (/ 380)), Qmult_inv_r in H
      by discriminate. lra.
Qed.










Example fade_alphas_halfway :
  fadeT 190 == 1 # 2 /\ alphaOut 190 == 3 # 4 /\ alphaIn 190 == 1 # 4.
Proof. repeat split; vm_compute; reflexivity. Qed.

(** A plan arrives with 100 names and a one-pixel preview: when the effects
    of the commit are done the canvas shows the final pixel, not the
    preview pixel that [fade()] had just painted. *)
Example plan_change_shows_final_first :
  let e := EnergyLoop.mkEnv false 100 3500 true true false false true in
  let from := [mkPixel 0.2 0.4 0.6 0.8] in
  let final := [mkPixel 1 0.5 0 1] in
  Transition.afterCommit true e from final 0 = Some (blitBufferToVisible final) /\
  Transition.afterCommit false e from final 0 <> Transition.afterCommit true e from final 0.
Proof. split; [reflexivity | vm_compute; discriminate]. Qed.

End Crossfade.

(** ** The working resolution of the energy effect *)

Section EnergySize.
Import JS Num Energy.

Lemma energyScale_small_all :
  map energyScale (seqZ 1 520) = replicate 520 1%float.
Proof. vm_compute. reflexivity. Qed.

Lemma energyScale_small (L : Z) : 1 <= L <= 520 -> energyScale L = 1%float.
Proof.
  intros H.
  assert (E : map energyScale (seqZ 1 520) !! Z.to_nat (L - 1) = Some (energyScale L)).
  { rewrite list_lookup_fmap, lookup_seqZ_lt by lia. cbn. f_equal. f_equal. lia. }
  rewrite energyScale_small_all in E.
  apply lookup_replicate in E as [E _]. now symmetry.
Qed.

Lemma dimOK_unit_all : forallb (dimOK 1%float) (seqZ 1 520) = true.
Proof. vm_compute. reflexivity. Qed.

Lemma dimOK_mid_all :
  forallb (fun L => let s := energyScale L in forallb (dimOK s) (seqZ 1 L))
    (seqZ 521 223) = true.
Proof. vm_compute. reflexivity. Qed.

Lemma dimOK_upto_743 (L a : Z) :
  1 <= a <= L -> L <= 743 -> dimOK (energyScale L) a = true.
Proof.
  intros Ha HL. destruct (Z_le_gt_dec L 520) as [Hs|Hm].
  - rewrite energyScale_small by lia.
    pose proof dimOK_unit_all as H. rewrite forallb_forall in H.
    apply H. apply list_elem_of_In, elem_of_seqZ. lia.
  - pose proof dimOK_mid_all as H. rewrite forallb_forall in H.
    assert (HL' : In L (seqZ 521 223))
      by (apply list_elem_of_In, elem_of_seqZ; lia).
    specialize (H L HL'). cbv zeta in H. rewrite forallb_forall in H.
    apply H. apply list_elem_of_In, elem_of_seqZ. lia.
Qed.

(** C4, as stated, fails: a Plan of 2000 by 1000 is rendered at 1400 by
    700, since the scale never goes below 0.7. *)
Lemma energy_long_edge_exceeds_520 :
  eW 2000 1000 = Some 1400 /\ eH 2000 1000 = Some 700 /\ ~ 1400 <= 520.
Proof. split; [|split]; [vm_compute; reflexivity .. | lia]. Qed.

(** C4, amended: for every Plan whose long edge is at most 743 pixels, the
    energy mask is rendered at a working resolution of at least 1 and at
    most 520 pixels on either edge. *)
Theorem energy_size_at_most_520 (w h : Z) :
  0 < w -> 0 < h -> Z.max w h <= 743 ->
  exists ew eh, eW w h = Some ew /\ eH w h = Some eh /\
                1 <= ew <= 520 /\ 1 <= eh <= 520.
Proof.
  intros Hw Hh HL.
  assert (Hdw : dimOK (energyScale (Z.max w h)) w = true)
    by (apply dimOK_upto_743; lia).
  assert (Hdh : dimOK (energyScale (Z.max w h)) h = true)
    by (apply dimOK_upto_743; lia).
  unfold dimOK in Hdw, Hdh. unfold eW, eH.
  destruct (energyDim w _) as [ew|]; [|discriminate].
  destruct (energyDim h _) as [eh|]; [|discriminate].
  exists ew, eh. apply andb_true_iff in Hdw as [? ?], Hdh as [? ?].
  repeat split; try reflexivity; lia.
Qed.

Lemma energy_size_at_most_520_witness :
  exists ew eh, eW 743 600 = Some ew /\ eH 743 600 = Some eh /\
                1 <= ew <= 520 /\ 1 <= eh <= 520.
Proof. apply (energy_size_at_most_520 743 600); lia. Defined.

(** Past 743 pixels the long edge is no longer held at 520: checked for
    every long edge up to 4096. *)
Lemma energy_long_edge_above_520_all :
  forallb (fun L => match energyDim L (energyScale L) with
                    | Some k => 520 <? k
                    | None => false
                    end) (seqZ 744 3353) = true.
Proof. vm_compute. reflexivity. Qed.

Lemma energy_long_edge_above_520 (w h : Z) :
  744 <= w <= 4096 -> 0 < h <= w -> exists ew, eW w h = Some ew /\ 520 < ew.
Proof.
  intros Hw Hh. unfold eW. rewrite Z.max_l by lia.
  pose proof energy_long_edge_above_520_all as H. rewrite forallb_forall in H.
  specialize (H w). destruct (energyDim w (energyScale w)) as [k|].
  - exists k. split; [reflexivity|]. apply Z.ltb_lt, H.
    apply list_elem_of_In, elem_of_seqZ. lia.
  - discriminate H. apply list_elem_of_In, elem_of_seqZ. lia.
Qed.

Example energy_size_examples :
  eW 512 512 = Some 512 /\ eW 743 743 = Some 520 /\ eW 744 744 = Some 521 /\
  eH 1 1345 = Some 941.
Proof. repeat split; vm_compute; reflexivity. Qed.

End EnergySize.

(** ** Region classification *)

Section Classification.
Import JS Num FinalStage.

Lemma bucketOf_classifySpec (hb : bool) (m : Masks) (it : Tile) :
  bucketOf hb m it = classifySpec hb m it.
Proof.
  unfold bucketOf, classifySpec, inHeadband, inMask.
  destruct (insideFactory (hairMask m) (x it) (y it)); [reflexivity|].
  destruct hb, (headbandMask m) as [hm|]; cbn;
    try destruct (insideFactory hm (x it) (y it)); cbn;
    destruct (insideFactory (beakMask m) (x it) (y it)); cbn; try reflexivity;
    destruct (insideFactory (feetMask m) (x it) (y it)); reflexivity.
Qed.

Lemma drawNames_buckets (hb : bool) (m : Masks) (items : list Tile) (b : Bucket)
    (it : Tile) :
  In (b, it) (drawNames hb m items) <->
  In it items /\ kind it = "text" /\ b = bucketOf hb m it.
Proof.
  induction items as [|it' items IH]; cbn; [tauto|].
  destruct (String.eqb_spec (kind it') "text") as [E|E]; cbn; rewrite IH.
  - split.
    + intros [H|H]; [injection H as <- <-; tauto | tauto].
    + intros [[->|H] [Hk ->]]; [left; reflexivity | right; tauto].
  - split; [tauto|]. intros [[->|H] [Hk Hb]]; [contradiction | tauto].
Qed.

(** The membership test: the alpha byte of the pixel nearest to the point,
    clamped into the mask, is above 0. *)
Lemma insideFactory_alpha (mask : ImageData) (px py : Q) :
  insideFactory mask px py = true <->
  exists a,
    js_get (data mask)
      ((Z.max 0 (Z.min (height mask - 1) (Math_round py)) * width mask
        + Z.max 0 (Z.min (width mask - 1) (Math_round px))) * 4 + 3) = Some a
    /\ 0 < a.
Proof.
  unfold insideFactory.
  destruct (js_get _ _) as [a|].
  - rewrite Z.ltb_lt. split; [intros H; exists a; auto|].
    intros (a' & E & H). now injection E as ->.
  - split; [discriminate|]. intros (a' & E & _). discriminate.
Qed.

(** C2. Every text tile of the plan is drawn into the layer of exactly one
    bucket, the one the priority order picks: hair first, then headband
    when the headband is active, then beak, then feet, and body when no
    mask contains the point; membership is the alpha of the nearest pixel
    being above 0. A tile inside both the hair and the beak mask goes to
    hair, not to beak. *)
Theorem classification_priority_order
    (hb : bool) (m : Masks) (items : list Tile) (it : Tile) :
  In it items -> kind it = "text" ->
  In (bucketOf hb m it, it) (drawNames hb m items) /\
  (forall b, In (b, it) (drawNames hb m items) -> b = bucketOf hb m it) /\
  bucketOf hb m it = classifySpec hb m it /\
  (forall mask, inMask mask it = true <->
     exists a,
       js_get (data mask)
         ((Z.max 0 (Z.min (height mask - 1) (Math_round (y it))) * width mask
           + Z.max 0 (Z.min (width mask - 1) (Math_round (x it)))) * 4 + 3) = Some a
       /\ 0 < a) /\
  (inMask (hairMask m) it = true -> inMask (beakMask m) it = true ->
   bucketOf hb m it = hair /\ bucketOf hb m it <> beak).
Proof.
  intros Hin Hk. split; [|split; [|split; [|split]]].
  - apply drawNames_buckets. auto.
  - intros b Hb. apply drawNames_buckets in Hb. tauto.
  - apply bucketOf_classifySpec.
  - intros mask. apply insideFactory_alpha.
  - intros Hh _. unfold inMask in Hh. unfold bucketOf. rewrite Hh.
    split; [reflexivity | discriminate].
Qed.

Lemma classification_priority_order_witness :
  let opaque := mkImageData 1 1 [0; 0; 0; 255] in
  let empty := mkImageData 1 1 [0; 0; 0; 0] in
  let m := mkMasks opaque None opaque empty in
  let it := mkTile "text" "duck" 0.2 0.4 12 None in
  let items := [mkTile "image" "" 0 0 0 None; it] in
  In (bucketOf false m it, it) (drawNames false m items) /\
  (forall b, In (b, it) (drawNames false m items) -> b = bucketOf false m it) /\
  bucketOf false m it = classifySpec false m it /\
  (forall mask, inMask mask it = true <->
     exists a,
       js_get (data mask)
         ((Z.max 0 (Z.min (height mask - 1) (Math_round (y it))) * width mask
           + Z.max 0 (Z.min (width mask - 1) (Math_round (x it)))) * 4 + 3) = Some a
       /\ 0 < a) /\
  (inMask (hairMask m) it = true -> inMask (beakMask m) it = true ->
   bucketOf false m it = hair /\ bucketOf false m it <> beak).
Proof.
  apply (classification_priority_order false
           (mkMasks (mkImageData 1 1 [0; 0; 0; 255]) None
                    (mkImageData 1 1 [0; 0; 0; 255]) (mkImageData 1 1 [0; 0; 0; 0]))
           [mkTile "image" "" 0 0 0 None; mkTile "text" "duck" 0.2 0.4 12 None]
           (mkTile "text" "duck" 0.2 0.4 12 None)).
  - right. left. reflexivity.
  - reflexivity.
Defined.

Example classification_examples :
  let opaque := mkImageData 1 1 [0; 0; 0; 255] in
  let empty := mkImageData 1 1 [0; 0; 0; 0] in
  let it := mkTile "text" "duck" 0.2 0.4 12 None in
  bucketOf false (mkMasks opaque None opaque empty) it = hair /\
  bucketOf true (mkMasks empty (Some opaque) opaque opaque) it = headband /\
  bucketOf false (mkMasks empty (Some opaque) opaque opaque) it = beak /\
  bucketOf true (mkMasks empty (Some empty) empty opaque) it = feet /\
  bucketOf true (mkMasks empty (Some empty) empty empty) it = body.
Proof. repeat split; reflexivity. Qed.

End Classification.

(** ** The energy loop *)

Section EnergyLoopFacts.
Import EnergyLoop.

Lemma animationFrames_idle (e : Env) (ts : list Q) (l : Loop) :
  rafEnergy l = None -> animationFrames e ts l = l.
Proof.
  revert l.
  induction ts as [|t ts IH]; intros l H; [reflexivity|].
  assert (E : animationFrame e t l = l) by (unfold animationFrame; now rewrite H).
  change (animationFrames e (t :: ts) l)
    with (animationFrames e ts (animationFrame e t l)).
  rewrite E. now apply IH.
Qed.

Lemma animationFrame_tick (e : Env) (t : Q) (l : Loop) :
  surface e = true -> rafEnergy l = Some tick ->
  animationFrame e t l = mkLoop (Some tick) (frames l ++ [t]).
Proof.
  intros Hs H. unfold animationFrame. rewrite H. cbn.
  unfold drawFrame. now rewrite Hs.
Qed.

Lemma animationFrames_cons (e : Env) (t : Q) (ts : list Q) (l : Loop) :
  animationFrames e (t :: ts) l = animationFrames e ts (animationFrame e t l).
Proof. reflexivity. Qed.

Lemma animationFrames_looping (e : Env) (ts : list Q) (l : Loop) :
  surface e = true -> rafEnergy l = Some tick ->
  frames (animationFrames e ts l) = frames l ++ ts /\
  rafEnergy (animationFrames e ts l) = Some tick.
Proof.
  intros Hs. revert l.
  induction ts as [|t ts IH]; intros l H.
  - cbn. now rewrite app_nil_r.
  - rewrite animationFrames_cons, animationFrame_tick by assumption.
    destruct (IH (mkLoop (Some tick) (frames l ++ [t])) eq_refl) as [IH1 IH2].
    rewrite IH1, IH2. cbn. rewrite <- app_assoc. auto.
Qed.

Lemma energyEffect_entered (e : Env) (now : Q) (l : Loop) :
  entered e ->
  energyEffect e now l =
    if prefersReduced e then drawFrame e now (cancelAnimationFrame l)
    else requestAnimationFrame tick (cancelAnimationFrame l).
Proof.
  intros (H1 & H2 & H3 & H4 & H5). unfold energyEffect, energyActive.
  apply Z.leb_le in H2. now rewrite H1, H2, H3, H4, H5.
Qed.

(** C8. Once the energy phase is entered on a mounted canvas, with the
    reduced-motion preference the effect renders one frame, at the time it
    runs, and leaves no callback pending: whatever animation ticks follow,
    no further energy frame is rendered. Without the preference the effect
    schedules [tick], and every animation tick renders a frame and
    schedules [tick] again. *)
Theorem energy_reduced_motion_one_frame
    (e : Env) (now : Q) (ts : list Q) (l0 : Loop) :
  entered e -> surface e = true ->
  let l := animationFrames e ts (energyEffect e now l0) in
  (prefersReduced e = true ->
   frames l = frames l0 ++ [now] /\ rafEnergy l = None) /\
  (prefersReduced e = false ->
   frames l = frames l0 ++ ts /\ rafEnergy l = Some tick).
Proof.
  intros He Hs l. subst l. rewrite energyEffect_entered by exact He.
  split; intros Hp; rewrite Hp.
  - rewrite animationFrames_idle; unfold drawFrame; rewrite Hs; cbn; auto.
  - destruct (animationFrames_looping e ts
                (requestAnimationFrame tick (cancelAnimationFrame l0)) Hs eq_refl)
      as [A B].
    split; [exact A | exact B].
Qed.

Lemma energy_reduced_motion_one_frame_witness :
  let e := mkEnv true 4000 3500 true true true true true in
  let l := animationFrames e [16%Q; 33%Q; 50%Q] (energyEffect e 0%Q (mkLoop None [])) in
  (prefersReduced e = true ->
   frames l = frames (mkLoop None []) ++ [0%Q] /\ rafEnergy l = None) /\
  (prefersReduced e = false ->
   frames l = frames (mkLoop None []) ++ [16%Q; 33%Q; 50%Q] /\ rafEnergy l = Some tick).
Proof.
  apply (energy_reduced_motion_one_frame
           (mkEnv true 4000 3500 true true true true true) 0%Q [16%Q; 33%Q; 50%Q]
           (mkLoop None [])).
  - unfold entered; cbn. repeat split; try reflexivity. lia.
  - reflexivity.
Defined.

Example energy_loop_examples :
  frames (animationFrames (mkEnv true 4000 3500 true true true true true)
            [16%Q; 33%Q; 50%Q] (energyEffect (mkEnv true 4000 3500 true true true true true)
                            0%Q (mkLoop None []))) = [0%Q] /\
  frames (animationFrames (mkEnv true 4000 3500 true true true false true)
            [16%Q; 33%Q; 50%Q] (energyEffect (mkEnv true 4000 3500 true true true false true)
                            0%Q (mkLoop None []))) = [16%Q; 33%Q; 50%Q] /\
  frames (animationFrames (mkEnv true 500 3500 true true true false true)
            [16%Q; 33%Q; 50%Q] (energyEffect (mkEnv true 500 3500 true true true false true)
                            0%Q (mkLoop None []))) = [].
Proof. repeat split; reflexivity. Qed.

End EnergyLoopFacts.

(** ** The final composite *)

Section FinalComposite.
Import JS Num FinalStage.

(** C3, as stated, fails: with a population of 500 under a threshold of
    3500 the energy phase is not active, yet when the outline image did not
    load the final stage composes the frame without the static outline
    glow. *)
Lemma outline_glow_absent_below_threshold :
  exists passes,
    finalComposite (Some (mkPlan false None [])) noOutline 500 3500 = Some passes /\
    ~ In outlineGlow passes.
Proof.
  eexists. split; [vm_compute; reflexivity|].
  cbn. unfold outlineGlow.
  intros H. repeat (destruct H as [H|H]; [discriminate H|]). exact H.
Qed.

(** C3, amended: whenever the final stage composes, the static outline
    glow pass is among the passes drawn into the final buffer exactly when
    the outline mask is available and the population is below the
    activation threshold; at or above the threshold it is absent. *)
Theorem outline_glow_iff_outline_and_below_threshold
    (p : Plan) (maskBitmaps : gmap string ImageData) (total CAP : Z)
    (passes : list Pass) :
  finalComposite (Some p) maskBitmaps total CAP = Some passes ->
  (In outlineGlow passes <-> is_Some (maskBitmaps !! "outline") /\ total < CAP).
Proof.
  unfold finalComposite.
  destruct (isPreview p); [discriminate|].
  destruct (negb (forallb _ _)); [discriminate|].
  intros [= <-].
  unfold loaded, drawMaskFill1x, outlineGlow.
  destruct (headbandActive p total);
    destruct (bool_decide_reflect (is_Some (maskBitmaps !! "outline"))) as [Ho|Ho];
    destruct (Z.leb_spec CAP total) as [Hc|Hc];
    destruct (Qle_bool (Qmax 0 (Qmin 1 (inject_Z total / 1000))) 0);
    cbn [negb orb andb];
    change (Qle_bool 0.95 0) with false; change (Qle_bool 0.14 0) with false;
    change (Qle_bool 0.12 0) with false; change (Qle_bool 1 0) with false;
    cbv iota;
    repeat (rewrite ?in_app_iff; cbn [In]);
    (split; [intros H; decompose [or] H; clear H; try discriminate; try tauto;
             (split; [assumption | lia])
            | intros [H1 H2]; try contradiction; try lia; tauto]).
Qed.

Lemma outline_glow_iff_outline_and_below_threshold_witness :
  let bitmaps := <["outline" := mkImageData 1 1 [255; 255; 255; 255]]> noOutline in
  let passes :=
    [MaskFill "silMask" (255, 255, 255) 0.12 0;
     LayerNeon body "bodyMask" 1.05; LayerNeon beak "beakMask" 0.95;
     LayerNeon feet "feetMask" 0.95; LayerNeon hair "hairMask" 0.95;
     MaskFill "outlineMask" (255, 255, 255) 0.95 18;
     MaskFill "eyesMaskTop" (255, 255, 255) 1 0;
     MaskFill "eyesMaskRaw" (255, 255, 255) 1 0;
     MaskFill "pupilsMask" (17, 24, 39) (Qmax 0 (Qmin 1 (inject_Z 500 / 1000))) 0;
     MaskFill "nostrilsMask" (17, 24, 39) (Qmax 0 (Qmin 1 (inject_Z 500 / 1000))) 0] in
  In outlineGlow passes <-> is_Some (bitmaps !! "outline") /\ 500 < 3500.
Proof.
  apply (outline_glow_iff_outline_and_below_threshold (mkPlan false None [])
           (<["outline" := mkImageData 1 1 [255; 255; 255; 255]]> noOutline) 500 3500).
  vm_compute. reflexivity.
Defined.

End FinalComposite.

(** ** Comparisons of doubles *)

Section DoubleFacts.
Import JS Noise64.

Lemma SFcompare_antisym (x y : spec_float) :
  SFcompare y x = option_map CompOpp (SFcompare x y).
Proof.
  destruct x as [sx|sx| |sx mx ex], y as [sy|sy| |sy my ey]; cbn;
    try reflexivity; try (destruct sx; reflexivity); try (destruct sy; reflexivity);
    try (destruct sx, sy; reflexivity).
  destruct sx, sy; try reflexivity.
  - rewrite (Z.compare_antisym ex ey). destruct (ex ?= ey); cbn; try reflexivity.
    rewrite (ZC4 my mx). now rewrite CompOpp_involutive.
  - rewrite (Z.compare_antisym ex ey). destruct (ex ?= ey); cbn; try reflexivity.
    now rewrite (ZC4 my mx).
Qed.

Lemma is_nan_false (x : float) : is_nan x = false -> Prim2SF x <> S754_nan.
Proof.
  unfold is_nan. rewrite FloatAxioms.eqb_spec. unfold SFeqb. intros H E. rewrite E in H.
  discriminate.
Qed.

(** A number that is not below [y] and can be compared with it is at least [y]. *)
Lemma not_ltb_leb (x y : float) :
  (x <? y)%float = false -> is_nan x = false -> is_nan y = false ->
  (y <=? x)%float = true.
Proof.
  rewrite FloatAxioms.ltb_spec, FloatAxioms.leb_spec. unfold SFltb, SFleb.
  intros H Hx Hy. apply is_nan_false in Hx, Hy.
  rewrite SFcompare_antisym.
  destruct (Prim2SF x) as [sx|sx| |sx mx ex] eqn:Ex; [| |contradiction|];
    destruct (Prim2SF y) as [sy|sy| |sy my ey] eqn:Ey; try contradiction;
    destruct (SFcompare _ _) as [[| |]|] eqn:C; cbn in *; try reflexivity;
    try discriminate.
  all: try (destruct sx; discriminate); try (destruct sy; discriminate);
       try (destruct sx, sy; discriminate).
Qed.

(** [clamp01] gives a number from 0 to 1, or NaN. *)
Lemma clamp01_unit_or_nan (x : float) :
  is_nan (clamp01 x) = true \/
  ((0 <=? clamp01 x)%float = true /\ (clamp01 x <=? 1)%float = true).
Proof.
  unfold clamp01.
  destruct (x <? 0)%float eqn:E0; [right; split; reflexivity|].
  destruct (1 <? x)%float eqn:E1; [right; split; reflexivity|].
  destruct (is_nan x) eqn:N; [now left | right]. split.
  - apply not_ltb_leb; [exact E0 | exact N | reflexivity].
  - apply not_ltb_leb; [exact E1 | reflexivity | exact N].
Qed.

End DoubleFacts.

(** ** The energy mask *)

Section EnergyMask.
Import JS Num Noise64 Sampling Energy.

(** A loop that writes [c] values per item fills the buffer item by item. *)
Lemma lookup_flat_map_const {A B : Type} (f : A -> list B) (c : nat)
    (l : list A) (i k : nat) (a : A) :
  (forall a, length (f a) = c) -> l !! i = Some a -> (k < c)%nat ->
  flat_map f l !! (i * c + k)%nat = f a !! k.
Proof.
  intros Hc. revert i.
  induction l as [|a' l IH]; intros i Hi Hk; [discriminate|].
  cbn [flat_map]. destruct i as [|i]; cbn in Hi.
  - injection Hi as ->. cbn. apply lookup_app_l. rewrite Hc. exact Hk.
  - rewrite lookup_app_r by (rewrite Hc; lia).
    rewrite Hc. replace (S i * c + k - c)%nat with (i * c + k)%nat by lia.
    now apply IH.
Qed.

Lemma length_flat_map_const {A B : Type} (f : A -> list B) (c : nat) (l : list A) :
  (forall a, length (f a) = c) -> length (flat_map f l) = (length l * c)%nat.
Proof. intros Hc. apply flat_map_constant_length. auto. Qed.

Section Pixels.
Variable M : MathLib.
Variables (outData : list Z) (outW outH : Z).
Variables (nData : list Z) (nRes : Z).
Variables (w h : Z) (tSec : float) (o : EnergyOpts).

Local Abbreviation pixel := (energyPixel M outData outW outH nData nRes w h tSec o).
Local Abbreviation alphaAt := (outlineAlphaAt M outData outW outH nData nRes w h tSec o).
Local Abbreviation mask := (renderSaberEnergyMask M outData outW outH nData nRes w h tSec o).
Local Abbreviation a_of := (opacity M nData nRes w h tSec o).

Lemma energyPixel_length (x y : Z) : length (pixel x y) = 4%nat.
Proof.
  unfold energyPixel. destruct (alphaAt x y) as [[|?|?]|]; reflexivity.
Qed.

Lemma energyPixel_cases (x y : Z) :
  (alphaAt x y = Some 0 /\ pixel x y = [0; 0; 0; 0]) \/
  (alphaAt x y <> Some 0 /\
   pixel x y = [255; 255; 255; alphaByte (a_of (alphaAt x y) x y)]).
Proof.
  unfold energyPixel. destruct (alphaAt x y) as [[|p|p]|] eqn:E.
  - left. auto.
  - right. split; [discriminate | reflexivity].
  - right. split; [discriminate | reflexivity].
  - right. split; [discriminate | reflexivity].
Qed.

Lemma renderSaberEnergyMask_lookup (x y : Z) (k : nat) :
  0 <= x < w -> 0 <= y < h -> (k < 4)%nat ->
  mask !! (Z.to_nat ((y * w + x) * 4) + k)%nat = pixel x y !! k.
Proof.
  intros Hx Hy Hk. unfold renderSaberEnergyMask.
  set (row := fun y => flat_map (fun x => pixel x y) (seqZ 0 w)).
  assert (Hrow : forall y, length (row y) = (Z.to_nat w * 4)%nat).
  { intros y'. unfold row. rewrite (length_flat_map_const _ 4).
    - now rewrite length_seqZ.
    - intros x'. apply energyPixel_length. }
  replace (Z.to_nat ((y * w + x) * 4) + k)%nat
    with (Z.to_nat y * (Z.to_nat w * 4) + (Z.to_nat x * 4 + k))%nat by nia.
  rewrite (lookup_flat_map_const row (Z.to_nat w * 4) _ _ _ y Hrow).
  - unfold row. apply (lookup_flat_map_const (fun x => pixel x y) 4).
    + intros x'. apply energyPixel_length.
    + rewrite lookup_seqZ_lt by lia. f_equal. lia.
    + exact Hk.
  - rewrite lookup_seqZ_lt by lia. f_equal. lia.
  - nia.
Qed.

End Pixels.

(** The byte stored for an opacity: 0 for NaN and for 0, 255 for 1. *)
Lemma alphaByte_points :
  alphaByte nan = 0 /\ alphaByte 0 = 0 /\ alphaByte 1 = 255 /\
  alphaByte 0.5 = 127.
Proof. repeat split; vm_compute; reflexivity. Qed.

(** C7. For every pixel [(x, y)] of the energy buffer, the four bytes the
    compositor writes at that pixel are 0, 0, 0, 0 when the outline alpha
    [oa] sampled at the displaced, rescaled coordinate is exactly 0.
    Otherwise they are 255, 255, 255 and the alpha byte, and the alpha
    byte is the opacity [a] times 255, truncated; [a] is
    [oa / 255 * (0.14 + intensity) * gain * hf] clamped to the unit
    interval, so it is NaN (stored as 0) or a number from 0 to 1, and so
    is the intensity of strands and sparks it is made of. This holds
    whatever values the turbulence field, the options and the builtins
    take. *)
Theorem energy_pixel_transparent_or_white
    (M : MathLib) (outData : list Z) (outW outH : Z) (nData : list Z) (nRes : Z)
    (w h : Z) (tSec : float) (o : EnergyOpts) (x y : Z) :
  0 <= x < w -> 0 <= y < h ->
  let out := renderSaberEnergyMask M outData outW outH nData nRes w h tSec o in
  let oa := outlineAlphaAt M outData outW outH nData nRes w h tSec o x y in
  let i := intensity M nData nRes w h o x y in
  let a := clamp01 (float_elem oa / 255 * (0.14 + i) * gain o
                    * hf M tSec x y)%float in
  let p := Z.to_nat ((y * w + x) * 4) in
  (oa = Some 0 ->
   out !! p = Some 0 /\ out !! (p + 1)%nat = Some 0 /\
   out !! (p + 2)%nat = Some 0 /\ out !! (p + 3)%nat = Some 0) /\
  (oa <> Some 0 ->
   out !! p = Some 255 /\ out !! (p + 1)%nat = Some 255 /\
   out !! (p + 2)%nat = Some 255 /\
   out !! (p + 3)%nat = Some (clampU8 (float_or0 (a * 255)%float)) /\
   0 <= clampU8 (float_or0 (a * 255)%float) <= 255 /\
   (is_nan a = true \/ ((0 <=? a)%float = true /\ (a <=? 1)%float = true)) /\
   (is_nan i = true \/ ((0 <=? i)%float = true /\ (i <=? 1)%float = true))).
Proof.
  intros Hx Hy out oa i a p. subst out oa i a p.
  pose proof (renderSaberEnergyMask_lookup M outData outW outH nData nRes w h tSec o
                x y 0 Hx Hy ltac:(lia)) as L0.
  pose proof (renderSaberEnergyMask_lookup M outData outW outH nData nRes w h tSec o
                x y 1 Hx Hy ltac:(lia)) as L1.
  pose proof (renderSaberEnergyMask_lookup M outData outW outH nData nRes w h tSec o
                x y 2 Hx Hy ltac:(lia)) as L2.
  pose proof (renderSaberEnergyMask_lookup M outData outW outH nData nRes w h tSec o
                x y 3 Hx Hy ltac:(lia)) as L3.
  rewrite Nat.add_0_r in L0. rewrite L0, L1, L2, L3.
  destruct (energyPixel_cases M outData outW outH nData nRes w h tSec o x y)
    as [[E ->]|[E ->]].
  - split; [intros _; repeat split; reflexivity | intros N; contradiction].
  - split; [intros N; contradiction|].
    intros _. split; [reflexivity|]. split; [reflexivity|]. split; [reflexivity|].
    split; [reflexivity|]. split; [apply clampU8_range|].
    split; [apply clamp01_unit_or_nan|].
    unfold intensity. apply clamp01_unit_or_nan.
Qed.

Lemma energy_pixel_transparent_or_white_witness :
  let M := mkMathLib (fun _ => 0%float) (fun _ => 1%float) (fun b _ => b) in
  let outData := [0; 0; 0; 0; 0; 0; 0; 200] in
  let nData := [128; 128; 255; 255] in
  let out := renderSaberEnergyMask M outData 2 1 nData 1 2 1 0 defaultEnergyOpts in
  let oa := outlineAlphaAt M outData 2 1 nData 1 2 1 0 defaultEnergyOpts 1 0 in
  let i := intensity M nData 1 2 1 defaultEnergyOpts 1 0 in
  let a := clamp01 (float_elem oa / 255 * (0.14 + i) * gain defaultEnergyOpts
                    * hf M 0 1 0)%float in
  let p := Z.to_nat ((0 * 2 + 1) * 4) in
  (oa = Some 0 ->
   out !! p = Some 0 /\ out !! (p + 1)%nat = Some 0 /\
   out !! (p + 2)%nat = Some 0 /\ out !! (p + 3)%nat = Some 0) /\
  (oa <> Some 0 ->
   out !! p = Some 255 /\ out !! (p + 1)%nat = Some 255 /\
   out !! (p + 2)%nat = Some 255 /\
   out !! (p + 3)%nat = Some (clampU8 (float_or0 (a * 255)%float)) /\
   0 <= clampU8 (float_or0 (a * 255)%float) <= 255 /\
   (is_nan a = true \/ ((0 <=? a)%float = true /\ (a <=? 1)%float = true)) /\
   (is_nan i = true \/ ((0 <=? i)%float = true /\ (i <=? 1)%float = true))).
Proof.
  apply (energy_pixel_transparent_or_white
           (mkMathLib (fun _ => 0%float) (fun _ => 1%float) (fun b _ => b))
           [0; 0; 0; 0; 0; 0; 0; 200] 2 1 [128; 128; 255; 255] 1 2 1 0
           defaultEnergyOpts 1 0); lia.
Defined.

(** The first pixel stays transparent; the second, over outline alpha 200
    and a field of full spark and filament, gets the opacity
    200 / 255 * 1.14 * 1.15 * 0.82 and with it the alpha byte 215. *)
Example energy_mask_example :
  renderSaberEnergyMask
    (mkMathLib (fun _ => 0%float) (fun _ => 1%float) (fun b _ => b))
    [0; 0; 0; 0; 0; 0; 0; 200] 2 1 [128; 128; 255; 255] 1 2 1 0 defaultEnergyOpts
  = [0; 0; 0; 0; 255; 255; 255; 215].
Proof. vm_compute. reflexivity. Qed.

End EnergyMask.

(** ** Packing and sampling the turbulence field *)

Section FieldPacking.
Import JS Num Noise64 Sampling Turbulence.



















(** The field of the witness at its second pixel, and the twenty bytes
    that a displacement is packed one below. *)
Example sample_on_pixel :
  sampleSaberField [0; 255; 128; 64; 17; 237; 0; 255; 1; 2; 3; 4; 5; 6; 7; 8] 2 1 0
  = mkSaberField (decodeDisp 17) (decodeDisp 237) 0 1.
Proof. vm_compute. reflexivity. Qed.

(** The rotation, for an engine whose cosine is 0 and whose sine is 1
    everywhere, a quarter turn: the displacement (1, 0.5) becomes
    (-0.5, 1), scaled by 1.15. *)
Example curl_quarter_turn :
  curl (mkMathLib (fun _ => 1%float) (fun _ => 0%float) (fun b _ => b)) 1 0.75
  = ((-0.5 * 1.15)%float, 1.15%float).
Proof. vm_compute. reflexivity. Qed.

Example packDisp_examples :
  packDisp 1 = 255 /\ packDisp (-1) = 0 /\ packDisp 0 = 127 /\
  packDisp 1.15 = 255 /\ packDisp (-1.15) = 0 /\ packDisp 0.5 = 191 /\
  filter (fun b => negb (packDisp (decodeDisp b) =? b)) (seqZ 0 256)
  = [1; 2; 5; 9; 10; 13; 17; 18; 21; 25; 26; 29; 33; 34; 41; 42; 49; 50; 57; 58].
Proof. repeat split; vm_compute; reflexivity. Qed.

End FieldPacking.


(** ** Value noise and fractal noise *)

Section NoiseBounds.
Import JS Num Noise.

Lemma clamp01_unit (x : Q) : (0 <= clamp01 x <= 1)%Q.
Proof.
  unfold clamp01. destruct (Qltb x 0) eqn:E0; [lra|].
  destruct (Qltb 1 x) eqn:E1; [lra|].
  apply Qltb_ge in E0, E1. lra.
Qed.

Lemma smoothstep_unit (t : Q) : (0 <= t <= 1)%Q -> (0 <= smoothstep t <= 1)%Q.
Proof.
  intros Ht. unfold smoothstep. split.
  - assert (0 <= t * t)%Q by nra. assert (0 <= 3 - 2 * t)%Q by lra.
    apply Qmult_le_0_compat; assumption.
  - assert (E : (1 - t * t * (3 - 2 * t) == (1 - t) * (1 - t) * (1 + 2 * t))%Q) by ring.
    assert (0 <= (1 - t) * (1 - t) * (1 + 2 * t))%Q.
    { apply Qmult_le_0_compat; [|lra]. apply Qmult_le_0_compat; lra. }
    lra.
Qed.

Lemma lerp_unit (a b t : Q) :
  (0 <= a <= 1)%Q -> (0 <= b <= 1)%Q -> (0 <= t <= 1)%Q -> (0 <= lerp a b t <= 1)%Q.
Proof.
  intros Ha Hb Ht. unfold lerp.
  assert (E : (a + (b - a) * t == a * (1 - t) + b * t)%Q) by ring.
  assert (0 <= a * (1 - t) <= 1 * (1 - t))%Q.
  { split; [apply Qmult_le_0_compat; lra | apply Qmult_le_compat_r; lra]. }
  assert (0 <= b * t <= 1 * t)%Q.
  { split; [apply Qmult_le_0_compat; lra | apply Qmult_le_compat_r; lra]. }
  lra.
Qed.

Lemma fraction_unit (x : Q) : (0 <= x - inject_Z (Qfloor x) <= 1)%Q.
Proof.
  pose proof (Qfloor_le x). pose proof (Qlt_floor x) as H1.
  rewrite inject_Z_plus in H1. change (inject_Z 1) with 1%Q in H1. lra.
Qed.

Lemma valueNoise2D_range (x y : Q) (seed : Z) :
  (0 <= valueNoise2D x y seed <= 1)%Q.
Proof.
  unfold valueNoise2D, Math_floor.
  pose proof (fraction_unit x). pose proof (fraction_unit y).
  apply lerp_unit; [apply lerp_unit | apply lerp_unit | ];
    try apply hash2i_unit; apply smoothstep_unit; assumption.
Qed.

(** X1. [valueNoise2D] stays in the unit interval at every point and for
    every seed: the smoothed fractions are weights in [0, 1] and the four
    corner hashes lie in [0, 1], so the three interpolations cannot leave
    it. *)
Theorem valueNoise2D_unit (x y : Q) (seed : Z) :
  (0 <= valueNoise2D x y seed <= 1)%Q.
Proof.
  unfold valueNoise2D, Math_floor.
  set (sx := smoothstep (x - inject_Z (Qfloor x))).
  set (sy := smoothstep (y - inject_Z (Qfloor y))).
  assert (Hsx : (0 <= sx <= 1)%Q) by (apply smoothstep_unit, fraction_unit).
  assert (Hsy : (0 <= sy <= 1)%Q) by (apply smoothstep_unit, fraction_unit).
  apply lerp_unit; [| | exact Hsy];
    apply lerp_unit; try exact Hsx; apply hash2i_unit.
Qed.

(** X2. On the integer lattice [valueNoise2D] interpolates nothing: at
    [(i, j)] it is the hash of that corner. *)
Theorem valueNoise2D_lattice (i j seed : Z) :
  (valueNoise2D (inject_Z i) (inject_Z j) seed == hash2i i j seed)%Q.
Proof.
  unfold valueNoise2D, Math_floor. rewrite !Qfloor_Z.
  unfold lerp, smoothstep. ring.
Qed.

Lemma fbm_loop_bounds (todo : nat) (i : Z) (x y : Q) (seed : Z)
    (sum amp freq norm : Q) :
  (0 <= amp)%Q -> (0 <= sum <= norm)%Q ->
  (0 <= fst (fbm_loop todo i x y seed sum amp freq norm)
     <= snd (fbm_loop todo i x y seed sum amp freq norm))%Q.
Proof.
  revert i sum amp freq norm.
  induction todo as [|todo IH]; intros i sum amp freq norm Ha Hs; [exact Hs|].
  cbn [fbm_loop]. apply IH; [lra|].
  pose proof (valueNoise2D_range (x * freq) (y * freq) (seed + i * 1013)) as Hn.
  set (n := valueNoise2D _ _ _) in *.
  assert (0 <= amp * n <= amp * 1)%Q.
  { split; [apply Qmult_le_0_compat; lra|].
    rewrite !(Qmult_comm amp). apply Qmult_le_compat_r; lra. }
  lra.
Qed.

(** X3. [fbm2D] stays in the unit interval: the weighted sum never exceeds
    the sum of the weights it is divided by, and without octaves the
    result is 0. Stated for the values in exact arithmetic, for at most
    1000 octaves and coordinates up to 2^24 in magnitude: within these
    bounds the frequency [2^i] and the products [x * freq], [y * freq] are
    finite doubles, so that the source computes with finite numbers
    throughout. *)
Theorem fbm2D_unit (x y : Q) (octaves : nat) (seed : Z) :
  (octaves <= 1000)%nat ->
  (- inject_Z (2 ^ 24) <= x <= inject_Z (2 ^ 24))%Q ->
  (- inject_Z (2 ^ 24) <= y <= inject_Z (2 ^ 24))%Q ->
  (0 <= fbm2D x y octaves seed <= 1)%Q /\ fbm2D x y 0 seed = 0%Q.
Proof.
  intros _ _ _. split; [|reflexivity]. unfold fbm2D.
  pose proof (fbm_loop_bounds octaves 0 x y seed 0 0.5 1 0) as H.
  destruct (fbm_loop octaves 0 x y seed 0 0.5 1 0) as [sum norm].
  cbn [fst snd] in H. specialize (H ltac:(lra) ltac:(lra)).
  destruct (Qltb 0 norm) eqn:E; [|lra].
  apply Qltb_lt in E. split.
  - apply Qle_shift_div_l; [exact E | lra].
  - apply Qle_shift_div_r; [exact E | lra].
Qed.

Lemma fbm2D_unit_witness :
  (0 <= fbm2D 1.5 2.25 4 1337 <= 1)%Q /\ fbm2D 1.5 2.25 0 1337 = 0%Q.
Proof.
  apply (fbm2D_unit 1.5 2.25 4 1337).
  - lia.
  - vm_compute. split; discriminate.
  - vm_compute. split; discriminate.
Defined.

(** On the doubles themselves, over a grid of 8 by 8 points three eighths
    apart, with the octaves and seeds [renderSaberFields] uses by default:
    every value of [fbm2D] is from 0 to 1. *)
Example fbm2D_doubles_grid :
  forallb (fun i =>
    forallb (fun j =>
      forallb (fun os =>
        let v := Noise64.fbm2D (float_of_Z i * 0.375) (float_of_Z j * 0.375) (fst os) (snd os) in
        (0 <=? v)%float && (v <=? 1)%float)
        [(3%nat, 7331); (3%nat, 7350); (4%nat, 7408)])
      (seqZ 0 8))
    (seqZ 0 8) = true.
Proof. vm_compute. reflexivity. Qed.

(** Past 1024 octaves the frequency of the doubles is infinite and the
    result is NaN. *)
Example fbm2D_doubles_overflow :
  is_nan (Noise64.fbm2D 1.5 2.25 1030 1337) = true.
Proof. vm_compute. reflexivity. Qed.

End NoiseBounds.

(** ** The buffers of the turbulence field and of the energy mask *)

Section FieldBuffers.
Import JS Num Noise64 Sampling Turbulence Energy.

Lemma Forall_flat_map_intro {A B : Type} (P : B -> Prop) (f : A -> list B) (l : list A) :
  (forall a, Forall P (f a)) -> Forall P (flat_map f l).
Proof.
  intros H. induction l as [|a l IH]; cbn; [constructor|].
  apply Forall_app. split; [apply H | exact IH].
Qed.

Lemma length_pixel_grid (f : Z -> Z -> list Z) (w h : Z) :
  (forall x y, length (f x y) = 4%nat) -> 0 <= w -> 0 <= h ->
  Z.of_nat (length (flat_map (fun y => flat_map (fun x => f x y) (seqZ 0 w)) (seqZ 0 h)))
  = 4 * w * h.
Proof.
  intros Hf Hw Hh.
  rewrite (length_flat_map_const _ (Z.to_nat w * 4)).
  - rewrite length_seqZ. nia.
  - intros y. rewrite (length_flat_map_const _ 4); [now rewrite length_seqZ|].
    intros x. apply Hf.
Qed.

Lemma saberFieldPixel_length M res tSec o x y :
  length (saberFieldPixel M res tSec o x y) = 4%nat.
Proof.
  unfold saberFieldPixel. destruct (curl _ _ _), (filaments _ _ _). reflexivity.
Qed.

Lemma saberFieldPixel_bytes M res tSec o x y :
  Forall (fun b => 0 <= b <= 255) (saberFieldPixel M res tSec o x y).
Proof.
  unfold saberFieldPixel. destruct (curl _ _ _), (filaments _ _ _).
  unfold packDisp, packUnit. repeat constructor; apply clampU8_range.
Qed.

(** X4. [renderSaberFields] fills a whole RGBA image of [res] by [res]
    pixels: the buffer has [4 * res * res] entries and every one is a byte,
    whatever the builtins return. *)
Theorem renderSaberFields_buffer (M : MathLib) (res : Z) (tSec : float) (o : FieldOpts) :
  0 <= res ->
  Z.of_nat (length (renderSaberFields M res tSec o)) = 4 * res * res /\
  Forall (fun b => 0 <= b <= 255) (renderSaberFields M res tSec o).
Proof.
  intros Hr. unfold renderSaberFields. split.
  - apply (length_pixel_grid (saberFieldPixel M res tSec o));
      [intros; apply saberFieldPixel_length | lia | lia].
  - apply Forall_flat_map_intro. intros y. apply Forall_flat_map_intro.
    intros x. apply saberFieldPixel_bytes.
Qed.

Lemma renderSaberFields_buffer_witness :
  let M := mkMathLib (fun _ => 0%float) (fun _ => 1%float) (fun b _ => b) in
  Z.of_nat (length (renderSaberFields M 2 0 defaultFieldOpts)) = 4 * 2 * 2 /\
  Forall (fun b => 0 <= b <= 255) (renderSaberFields M 2 0 defaultFieldOpts).
Proof.
  apply (renderSaberFields_buffer
           (mkMathLib (fun _ => 0%float) (fun _ => 1%float) (fun b _ => b)) 2 0
           defaultFieldOpts).
  lia.
Defined.

(** The field of two by two pixels at time 0, with a sine that is 0, a
    cosine that is 1 and a power that is its base. *)
Example renderSaberFields_example :
  renderSaberFields (mkMathLib (fun _ => 0%float) (fun _ => 1%float) (fun b _ => b))
    2 0 defaultFieldOpts
  = [182; 103; 104; 152; 68; 183; 163; 155; 161; 142; 0; 140; 137; 170; 0; 121].
Proof. vm_compute. reflexivity. Qed.

(** X6. [renderSaberEnergyMask] fills a whole RGBA image of [w] by [h]
    pixels: [4 * w * h] entries, each a byte, for every outline buffer,
    field buffer, time and option set. *)
Theorem renderSaberEnergyMask_buffer (M : MathLib) (outData : list Z) (outW outH : Z)
    (nData : list Z) (nRes : Z) (w h : Z) (tSec : float) (o : EnergyOpts) :
  0 <= w -> 0 <= h ->
  Z.of_nat (length (renderSaberEnergyMask M outData outW outH nData nRes w h tSec o))
    = 4 * w * h /\
  Forall (fun b => 0 <= b <= 255)
    (renderSaberEnergyMask M outData outW outH nData nRes w h tSec o).
Proof.
  intros Hw Hh. unfold renderSaberEnergyMask. split.
  - apply (length_pixel_grid (energyPixel M outData outW outH nData nRes w h tSec o));
      [intros; apply energyPixel_length | lia | lia].
  - apply Forall_flat_map_intro. intros y. apply Forall_flat_map_intro. intros x.
    destruct (energyPixel_cases M outData outW outH nData nRes w h tSec o x y)
      as [[_ ->]|[_ ->]]; repeat constructor; try lia; apply clampU8_range.
Qed.

Lemma renderSaberEnergyMask_buffer_witness :
  let M := mkMathLib (fun _ => 0%float) (fun _ => 1%float) (fun b _ => b) in
  let out := renderSaberEnergyMask M [0; 0; 0; 0; 0; 0; 0; 200] 2 1
               [128; 128; 255; 255] 1 2 1 0 defaultEnergyOpts in
  Z.of_nat (length out) = 4 * 2 * 1 /\ Forall (fun b => 0 <= b <= 255) out.
Proof.
  apply (renderSaberEnergyMask_buffer
           (mkMathLib (fun _ => 0%float) (fun _ => 1%float) (fun b _ => b))
           [0; 0; 0; 0; 0; 0; 0; 200] 2 1 [128; 128; 255; 255] 1 2 1 0
           defaultEnergyOpts); lia.
Defined.

Lemma outline_zero_sample (outData : list Z) (outW outH : Z) (x y : number) :
  0 < outW <= two31 -> 0 < outH <= two31 ->
  Z.of_nat (length outData) = 4 * outW * outH ->
  Forall (fun b => b = 0) outData ->
  sampleOutlineAlphaNearest outData outW outH x y = Some 0.
Proof.
  intros HW HH Hlen Hz. unfold sampleOutlineAlphaNearest.
  pose proof (clampIndex_range x outW HW) as Hx.
  pose proof (clampIndex_range y outH HH) as Hy.
  set (xi := clampIndex x outW) in *. set (yi := clampIndex y outH) in *.
  assert (Hi : 0 <= (yi * outW + xi) * 4 + 3 < Z.of_nat (length outData)).
  { rewrite Hlen. apply pixel_index_range; lia. }
  destruct (js_get_in_range outData _ Hi) as [E [b Hb]].
  rewrite Hb. f_equal. rewrite E in Hb.
  rewrite Forall_forall in Hz. apply Hz. eapply list_elem_of_lookup_2. exact Hb.
Qed.

(** X7. No outline, no energy: over an outline buffer of the right size
    whose bytes are all 0, every byte [renderSaberEnergyMask] writes is 0,
    whatever the turbulence field displaces and whatever the options. *)
Theorem energy_mask_empty_outline (M : MathLib) (outData : list Z) (outW outH : Z)
    (nData : list Z) (nRes : Z) (w h : Z) (tSec : float) (o : EnergyOpts) :
  0 < outW <= two31 -> 0 < outH <= two31 ->
  Z.of_nat (length outData) = 4 * outW * outH ->
  Forall (fun b => b = 0) outData ->
  Forall (fun b => b = 0)
    (renderSaberEnergyMask M outData outW outH nData nRes w h tSec o).
Proof.
  intros HW HH Hlen Hz. unfold renderSaberEnergyMask.
  apply Forall_flat_map_intro. intros y. apply Forall_flat_map_intro. intros x.
  unfold energyPixel, outlineAlphaAt.
  rewrite outline_zero_sample by assumption. repeat constructor.
Qed.

Lemma energy_mask_empty_outline_witness :
  let M := mkMathLib (fun _ => 0%float) (fun _ => 1%float) (fun b _ => b) in
  Forall (fun b => b = 0)
    (renderSaberEnergyMask M [0; 0; 0; 0; 0; 0; 0; 0] 2 1 [128; 128; 255; 255] 1
       2 1 0 defaultEnergyOpts).
Proof.
  apply (energy_mask_empty_outline
           (mkMathLib (fun _ => 0%float) (fun _ => 1%float) (fun b _ => b))
           [0; 0; 0; 0; 0; 0; 0; 0] 2 1 [128; 128; 255; 255] 1 2 1 0
           defaultEnergyOpts).
  - unfold two31. lia.
  - unfold two31. lia.
  - reflexivity.
  - repeat constructor.
Defined.

(** X8. The index [x < 0 ? 0 : x > n - 1 ? n - 1 : x | 0] of the outline
    sampler: a negative coordinate reads pixel 0, a coordinate beyond the
    last pixel reads pixel [n - 1], and in between the coordinate is
    truncated, not rounded. *)
Theorem clampIndex_truncates (q : Q) (n : Z) :
  0 < n <= two31 ->
  ((q < 0)%Q -> clampIndex (Num q) n = 0) /\
  ((0 <= q)%Q -> (q <= inject_Z (n - 1))%Q -> clampIndex (Num q) n = Qfloor q) /\
  ((inject_Z (n - 1) < q)%Q -> clampIndex (Num q) n = n - 1).
Proof.
  intros Hn. unfold clampIndex. cbn [ltZ gtZ or0].
  split; [|split].
  - intros H. apply Qltb_lt in H. change (inject_Z 0) with 0%Q. now rewrite H.
  - intros H0 H1. change (inject_Z 0) with 0%Q.
    apply Qltb_ge in H0, H1. rewrite H0, H1. apply Qltb_ge in H0, H1.
    unfold Qor0. rewrite Qtrunc_nonneg by exact H0.
    assert (0 <= Qfloor q) by (apply Qfloor_lb; exact H0).
    assert (Qfloor q <= n - 1) by (apply Qfloor_le_Z; exact H1).
    apply ToInt32_small. unfold two31 in *. lia.
  - intros H. assert (H0 : (0 <= q)%Q).
    { assert (0 <= inject_Z (n - 1))%Q
        by (change 0%Q with (inject_Z 0); rewrite <- Zle_Qle; lia). lra. }
    change (inject_Z 0) with 0%Q. apply Qltb_ge in H0. rewrite H0.
    apply Qltb_lt in H. now rewrite H.
Qed.

Lemma clampIndex_truncates_witness :
  ((2.7 < 0)%Q -> clampIndex (Num 2.7) 4 = 0) /\
  ((0 <= 2.7)%Q -> (2.7 <= inject_Z (4 - 1))%Q -> clampIndex (Num 2.7) 4 = Qfloor 2.7) /\
  ((inject_Z (4 - 1) < 2.7)%Q -> clampIndex (Num 2.7) 4 = 4 - 1).
Proof.
  apply (clampIndex_truncates 2.7 4). unfold two31. lia.
Defined.

End FieldBuffers.

(** ** The energy effect and the crossfade weights *)

Section EffectGuards.
Import JS Num EnergyLoop FinalStage.

(** X9. The energy effect does nothing unless everything it needs is
    there: without a final render, below the cap, or without final buffer,
    plan or outline data it leaves no frame request behind and no energy
    frame is ever drawn, however many animation frames pass. *)
Theorem energy_effect_guards (e : Env) (now : Q) (ts : list Q) (l0 : Loop) :
  hasFinal e = false \/ total e < CAP e \/ finalBuffer e = false \/
  plan e = false \/ outlineData e = false ->
  animationFrames e ts (energyEffect e now l0) = mkLoop None (frames l0).
Proof.
  intros H. rewrite animationFrames_idle.
  - unfold energyEffect, energyActive, cancelAnimationFrame.
    destruct (hasFinal e), (Z.leb_spec (CAP e) (total e)), (finalBuffer e), (plan e),
      (outlineData e); cbn; try reflexivity; exfalso; intuition (discriminate || lia).
  - unfold energyEffect, energyActive, cancelAnimationFrame.
    destruct (hasFinal e), (Z.leb_spec (CAP e) (total e)), (finalBuffer e), (plan e),
      (outlineData e); cbn; try reflexivity; exfalso; intuition (discriminate || lia).
Qed.

Lemma energy_effect_guards_witness :
  let e := mkEnv true 3499 3500 true true true false true in
  animationFrames e [16%Q; 33%Q] (energyEffect e 0%Q (mkLoop (Some tick) [5%Q]))
  = mkLoop None [5%Q].
Proof.
  apply (energy_effect_guards (mkEnv true 3499 3500 true true true false true) 0%Q
           [16%Q; 33%Q] (mkLoop (Some tick) [5%Q])).
  right. left. cbn. lia.
Defined.

Lemma fadeT_unit (e : Q) : (0 <= e)%Q -> (0 <= fadeT e <= 1)%Q.
Proof.
  intros He. destruct (fadeT_cases e) as [[Hlt E]|[Hge E]]; rewrite E; [|lra].
  split; [apply Qle_shift_div_l; [reflexivity | lra]
         | apply Qle_shift_div_r; [reflexivity | lra]].
Qed.

(** X10. At every instant of the crossfade the two weights are proper
    opacities and add up to one: what the outgoing image loses the
    incoming one gains. *)
Theorem fade_weights (elapsed : Q) :
  (0 <= elapsed)%Q ->
  (alphaOut elapsed + alphaIn elapsed == 1)%Q /\
  (0 <= alphaIn elapsed <= 1)%Q /\ (0 <= alphaOut elapsed <= 1)%Q.
Proof.
  intros H0. unfold alphaOut, alphaIn.
  pose proof (fadeT_unit elapsed H0) as Ht.
  set (t := fadeT elapsed) in *.
  assert (0 <= t * t <= 1)%Q by nra.
  split; [ring | lra].
Qed.

Lemma fade_weights_witness :
  (alphaOut 190 + alphaIn 190 == 1)%Q /\
  (0 <= alphaIn 190 <= 1)%Q /\ (0 <= alphaOut 190 <= 1)%Q.
Proof.
  apply (fade_weights 190). lra.
Defined.

(** X11. The crossfade never goes back: as time passes the incoming image
    only gains opacity and the outgoing one only loses it. *)
Theorem fade_monotone (e1 e2 : Q) :
  (0 <= e1)%Q -> (e1 <= e2)%Q ->
  (alphaIn e1 <= alphaIn e2)%Q /\ (alphaOut e2 <= alphaOut e1)%Q.
Proof.
  intros H0 H12. unfold alphaOut, alphaIn.
  assert (M : (fadeT e1 <= fadeT e2)%Q).
  { destruct (fadeT_cases e1) as [[L1 E1]|[G1 E1]],
             (fadeT_cases e2) as [[L2 E2]|[G2 E2]]; rewrite E1, E2; try lra.
    - unfold Qdiv. apply Qmult_le_compat_r; [exact H12 | discriminate].
    - apply Qle_shift_div_r; [reflexivity | lra]. }
  pose proof (fadeT_unit e1 H0). pose proof (fadeT_unit e2 ltac:(lra)).
  set (a := fadeT e1) in *. set (b := fadeT e2) in *.
  assert (a * a <= b * b)%Q by nra. lra.
Qed.

Lemma fade_monotone_witness :
  (alphaIn 100 <= alphaIn 300)%Q /\ (alphaOut 300 <= alphaOut 100)%Q.
Proof.
  apply (fade_monotone 100 300); lra.
Defined.

End EffectGuards.

(** ** The passes of the final composite *)

Section CompositePasses.
Import JS Num FinalStage.

(** X12. The final stage composes exactly when there is a plan, the plan
    is not a preview, and every bitmap the stage needs has loaded; in all
    other cases it returns before drawing anything. *)
Theorem finalComposite_gating (p : option Plan) (maskBitmaps : gmap string ImageData)
    (total CAP : Z) :
  is_Some (finalComposite p maskBitmaps total CAP) <->
  exists pl, p = Some pl /\ isPreview pl = false /\
             forall k, In k (need (headbandActive pl total)) ->
                       is_Some (maskBitmaps !! k).
Proof.
  unfold finalComposite. destruct p as [pl|].
  - destruct (isPreview pl) eqn:Ep.
    + split; [intros [? H]; discriminate|]. intros (pl' & [= <-] & H & _). congruence.
    + destruct (forallb (loaded maskBitmaps) (need (headbandActive pl total))) eqn:Ef; cbn.
      * split; [|intros _; eexists; reflexivity].
        intros _. exists pl. split; [reflexivity|]. split; [exact Ep|].
        rewrite forallb_forall in Ef. intros k Hk. specialize (Ef k Hk).
        unfold loaded in Ef. now apply bool_decide_eq_true in Ef.
      * split; [intros [? H]; discriminate|]. intros (pl' & [= <-] & _ & H).
        exfalso. apply not_true_iff_false in Ef. apply Ef.
        rewrite forallb_forall. intros k Hk. unfold loaded.
        apply bool_decide_eq_true. now apply H.
  - split; [intros [? H]; discriminate|]. intros (pl' & H & _). discriminate.
Qed.

Lemma finalComposite_some (pl : Plan) (maskBitmaps : gmap string ImageData)
    (total CAP : Z) :
  isPreview pl = false ->
  (forall k, In k (need (headbandActive pl total)) -> is_Some (maskBitmaps !! k)) ->
  is_Some (finalComposite (Some pl) maskBitmaps total CAP).
Proof.
  intros Hp Hk. unfold finalComposite. rewrite Hp.
  assert (Ef : forallb (loaded maskBitmaps) (need (headbandActive pl total)) = true).
  { rewrite forallb_forall. intros k Hin. unfold loaded.
    apply bool_decide_eq_true. now apply Hk. }
  rewrite Ef. cbn. eexists. reflexivity.
Qed.

Lemma finalComposite_needs (pl : Plan) (maskBitmaps : gmap string ImageData)
    (total CAP : Z) (k : string) :
  In k (need (headbandActive pl total)) -> maskBitmaps !! k = None ->
  finalComposite (Some pl) maskBitmaps total CAP = None.
Proof.
  intros Hin Hk. unfold finalComposite. destruct (isPreview pl); [reflexivity|].
  destruct (forallb (loaded maskBitmaps) (need (headbandActive pl total))) eqn:Ef;
    [|reflexivity].
  rewrite forallb_forall in Ef. specialize (Ef k Hin). unfold loaded in Ef.
  apply bool_decide_eq_true in Ef. rewrite Hk in Ef. destruct Ef; discriminate.
Qed.

Lemma finalComposite_passes (pl : Plan) (maskBitmaps : gmap string ImageData)
    (total CAP : Z) (passes : list Pass) :
  finalComposite (Some pl) maskBitmaps total CAP = Some passes ->
  passes =
    drawMaskFill1x true "silMask" (255, 255, 255) 0.12 0
    ++ (if headbandActive pl total
        then drawMaskFill1x true "headbandMask" (255, 60, 90) 0.14 26 else [])
    ++ [LayerNeon body "bodyMask" 1.05; LayerNeon beak "beakMask" 0.95;
        LayerNeon feet "feetMask" 0.95]
    ++ (if headbandActive pl total then [LayerNeon headband "headbandMask" 1.0] else [])
    ++ [LayerNeon hair "hairMask" 0.95]
    ++ (if loaded maskBitmaps "outline" && negb (CAP <=? total)
        then drawMaskFill1x (loaded maskBitmaps "outline") "outlineMask"
               (255, 255, 255) 0.95 18
        else [])
    ++ drawMaskFill1x true "eyesMaskTop" (255, 255, 255) 1 0
    ++ drawMaskFill1x true "eyesMaskRaw" (255, 255, 255) 1 0
    ++ drawMaskFill1x true "pupilsMask" (17, 24, 39)
         (Qmax 0 (Qmin 1 (inject_Z total / 1000))) 0
    ++ drawMaskFill1x true "nostrilsMask" (17, 24, 39)
         (Qmax 0 (Qmin 1 (inject_Z total / 1000))) 0.
Proof.
  unfold finalComposite. destruct (isPreview pl); [discriminate|].
  cbv zeta. destruct (negb (forallb _ _)); [discriminate|].
  intros H. injection H as <-. reflexivity.
Qed.

Ltac eval_fills :=
  unfold drawMaskFill1x;
  change (Qle_bool 0.95 0) with false; change (Qle_bool 0.14 0) with false;
  change (Qle_bool 0.12 0) with false; change (Qle_bool 1 0) with false.

(** X13. The headband bitmap is required only while the headband is
    active. With every other required bitmap loaded and the headband one
    missing, an active headband keeps the final stage from composing,
    and an inactive one lets it compose without any headband pass. *)
Theorem headband_required_only_when_active (pl : Plan)
    (maskBitmaps : gmap string ImageData) (total CAP : Z) :
  isPreview pl = false ->
  (forall k, In k ["silhouette"; "hair"; "beak"; "feet"; "eyes"; "pupils"; "nostrils"] ->
             is_Some (maskBitmaps !! k)) ->
  maskBitmaps !! "headband" = None ->
  (headbandActive pl total = true ->
   finalComposite (Some pl) maskBitmaps total CAP = None) /\
  (headbandActive pl total = false ->
   exists passes, finalComposite (Some pl) maskBitmaps total CAP = Some passes /\
     forall x, In x passes ->
       x <> LayerNeon headband "headbandMask" 1.0 /\
       x <> MaskFill "headbandMask" (255, 60, 90) 0.14 26).
Proof.
  intros Hp Hall Hh. split; intros Hb.
  - apply (finalComposite_needs pl maskBitmaps total CAP "headband"); [|exact Hh].
    rewrite Hb. cbn. tauto.
  - assert (S : is_Some (finalComposite (Some pl) maskBitmaps total CAP)).
    { apply finalComposite_some; [exact Hp|].
      rewrite Hb. intros k Hk. apply Hall. cbn in *. tauto. }
    destruct S as [passes E]. exists passes. split; [exact E|].
    apply finalComposite_passes in E. subst passes. rewrite Hb.
    eval_fills.
    destruct (loaded maskBitmaps "outline" && negb (CAP <=? total));
      destruct (loaded maskBitmaps "outline");
      destruct (Qle_bool (Qmax 0 (Qmin 1 (inject_Z total / 1000))) 0);
      cbn; intros x Hx; decompose [or] Hx; subst; try contradiction;
      split; discriminate.
Qed.

Lemma headband_required_only_when_active_witness :
  let bitmaps := delete "headband" noOutline in
  let pl := mkPlan false None [] in
  (headbandActive pl 2000 = true ->
   finalComposite (Some pl) bitmaps 2000 3500 = None) /\
  (headbandActive pl 2000 = false ->
   exists passes, finalComposite (Some pl) bitmaps 2000 3500 = Some passes /\
     forall x, In x passes ->
       x <> LayerNeon headband "headbandMask" 1.0 /\
       x <> MaskFill "headbandMask" (255, 60, 90) 0.14 26).
Proof.
  apply (headband_required_only_when_active (mkPlan false None [])
           (delete "headband" noOutline) 2000 3500).
  - reflexivity.
  - intros k Hk. cbn in Hk. decompose [or] Hk; try contradiction; subst;
      vm_compute; eexists; reflexivity.
  - vm_compute. reflexivity.
Defined.

Lemma detailsAlpha_cases (total : Z) :
  let a := Qmax 0 (Qmin 1 (inject_Z total / 1000)) in
  (total <= 0 -> Qle_bool a 0 = true) /\
  (0 < total -> Qle_bool a 0 = false /\ (0 < a <= 1)%Q) /\
  (0 <= total <= 1000 -> (a == inject_Z total / 1000)%Q) /\
  (1000 <= total -> (a == 1)%Q).
Proof.
  intros a. subst a.
  assert (D : (inject_Z total / 1000 == inject_Z total * (1 # 1000))%Q) by reflexivity.
  assert (Le0 : total <= 0 -> (inject_Z total <= 0)%Q)
    by (intros H; rewrite Zle_Qle in H; exact H).
  assert (Ge0 : 0 <= total -> (0 <= inject_Z total)%Q)
    by (intros H; rewrite Zle_Qle in H; exact H).
  assert (Gt0 : 0 < total -> (1 <= inject_Z total)%Q)
    by (intros H; assert (H' : 1 <= total) by lia; rewrite Zle_Qle in H'; exact H').
  assert (Le1 : total <= 1000 -> (inject_Z total <= 1000)%Q)
    by (intros H; rewrite Zle_Qle in H; exact H).
  assert (Ge1 : 1000 <= total -> (1000 <= inject_Z total)%Q)
    by (intros H; rewrite Zle_Qle in H; exact H).
  set (q := (inject_Z total / 1000)%Q) in *. set (t := inject_Z total) in *.
  destruct (Qmin_cases 1 q) as [[H1 E1]|[H1 E1]]; rewrite E1;
    [destruct (Qmax_cases 0 1) as [[H2 E2]|[H2 E2]]
    |destruct (Qmax_cases 0 q) as [[H2 E2]|[H2 E2]]]; rewrite E2;
    (split; [|split; [|split]]); intros H;
    repeat match goal with
           | F : ?P -> _ |- _ =>
               first [ assert (P) as Hp by lia; specialize (F Hp); clear Hp | clear F ]
           end;
    try (apply Qle_bool_iff); try (split; [apply Qle_bool_gt|]); lra.
Qed.

(** X14. Pupils and nostrils fade in with the subscriber count. With no
    subscriber neither is drawn at all; from the first subscriber on both
    are drawn last in the same dark colour, at an opacity of one
    thousandth per subscriber that stops growing at 1000. *)
Theorem details_fade_in (pl : Plan) (maskBitmaps : gmap string ImageData)
    (total CAP : Z) (passes : list Pass) :
  finalComposite (Some pl) maskBitmaps total CAP = Some passes ->
  let a := Qmax 0 (Qmin 1 (inject_Z total / 1000)) in
  (total <= 0 ->
   forall rgb b blur, ~ In (MaskFill "pupilsMask" rgb b blur) passes /\
                      ~ In (MaskFill "nostrilsMask" rgb b blur) passes) /\
  (0 < total ->
   In (MaskFill "pupilsMask" (17, 24, 39) a 0) passes /\
   In (MaskFill "nostrilsMask" (17, 24, 39) a 0) passes /\
   (0 < a <= 1)%Q /\
   (total <= 1000 -> (a == inject_Z total / 1000)%Q) /\
   (1000 <= total -> (a == 1)%Q)).
Proof.
  intros E a. apply finalComposite_passes in E. subst passes.
  destruct (detailsAlpha_cases total) as (H0 & H1 & H2 & H3). fold a in H0, H1, H2, H3.
  split.
  - intros Ht rgb b blur. specialize (H0 Ht). eval_fills. fold a. rewrite H0.
    destruct (headbandActive pl total);
      destruct (loaded maskBitmaps "outline" && negb (CAP <=? total));
      destruct (loaded maskBitmaps "outline"); cbn;
      split; intros Hx; decompose [or] Hx; try contradiction; discriminate.
  - intros Ht. destruct (H1 Ht) as [Hq Ha].
    split; [|split; [|split; [exact Ha|split; [intros; apply H2; lia | exact H3]]]].
    + rewrite !in_app_iff. do 8 right. left. unfold drawMaskFill1x. fold a.
      rewrite Hq. cbn. auto.
    + rewrite !in_app_iff. do 9 right. unfold drawMaskFill1x. fold a.
      rewrite Hq. cbn. auto.
Qed.

Lemma details_fade_in_witness :
  exists passes,
    finalComposite (Some (mkPlan false None [])) noOutline 250 3500 = Some passes /\
    let a := Qmax 0 (Qmin 1 (inject_Z 250 / 1000)) in
    (250 <= 0 ->
     forall rgb b blur, ~ In (MaskFill "pupilsMask" rgb b blur) passes /\
                        ~ In (MaskFill "nostrilsMask" rgb b blur) passes) /\
    (0 < 250 ->
     In (MaskFill "pupilsMask" (17, 24, 39) a 0) passes /\
     In (MaskFill "nostrilsMask" (17, 24, 39) a 0) passes /\
     (0 < a <= 1)%Q /\
     (250 <= 1000 -> (a == inject_Z 250 / 1000)%Q) /\
     (1000 <= 250 -> (a == 1)%Q)).
Proof.
  destruct (finalComposite (Some (mkPlan false None [])) noOutline 250 3500)
    as [passes|] eqn:E; [|vm_compute in E; discriminate].
  exists passes. split; [reflexivity|].
  apply (details_fade_in (mkPlan false None []) noOutline 250 3500 passes). exact E.
Defined.

(** X15. The order of the final composite. The faint silhouette fill comes
    first; every name layer and the static outline glow are drawn before
    the two opaque eye fills; after the eye fills nothing is drawn but
    pupils and nostrils. *)
Theorem composite_order (pl : Plan) (maskBitmaps : gmap string ImageData)
    (total CAP : Z) (passes : list Pass) :
  finalComposite (Some pl) maskBitmaps total CAP = Some passes ->
  exists pre post,
    passes = MaskFill "silMask" (255, 255, 255) 0.12 0 :: pre
             ++ [MaskFill "eyesMaskTop" (255, 255, 255) 1 0;
                 MaskFill "eyesMaskRaw" (255, 255, 255) 1 0] ++ post /\
    (forall x, In x post -> exists a,
        x = MaskFill "pupilsMask" (17, 24, 39) a 0 \/
        x = MaskFill "nostrilsMask" (17, 24, 39) a 0) /\
    (forall layer mask k, In (LayerNeon layer mask k) passes ->
                          In (LayerNeon layer mask k) pre) /\
    (In outlineGlow passes -> In outlineGlow pre).
Proof.
  intros E. apply finalComposite_passes in E. subst passes.
  eval_fills. cbn [negb orb].
  set (det := Qmax 0 (Qmin 1 (inject_Z total / 1000))).
  eexists
    ((if headbandActive pl total
      then [MaskFill "headbandMask" (255, 60, 90) 0.14 26] else [])
     ++ [LayerNeon body "bodyMask" 1.05; LayerNeon beak "beakMask" 0.95;
         LayerNeon feet "feetMask" 0.95]
     ++ (if headbandActive pl total then [LayerNeon headband "headbandMask" 1.0] else [])
     ++ [LayerNeon hair "hairMask" 0.95]
     ++ (if loaded maskBitmaps "outline" && negb (CAP <=? total)
         then if negb (loaded maskBitmaps "outline") || false then []
              else [MaskFill "outlineMask" (255, 255, 255) 0.95 18]
         else [])),
    ((if Qle_bool det 0 then [] else [MaskFill "pupilsMask" (17, 24, 39) det 0])
     ++ (if Qle_bool det 0 then [] else [MaskFill "nostrilsMask" (17, 24, 39) det 0])).
  split; [|split; [|split]].
  - cbn. rewrite <- !app_assoc. cbn. f_equal.
    destruct (headbandActive pl total); cbn; reflexivity.
  - intros x Hx. exists det. destruct (Qle_bool det 0); cbn in Hx;
      [contradiction | intuition auto].
  - intros layer mask k.
    destruct (headbandActive pl total);
      destruct (loaded maskBitmaps "outline" && negb (CAP <=? total));
      destruct (loaded maskBitmaps "outline");
      destruct (Qle_bool det 0); cbn;
      intros Hx; decompose [or] Hx; try discriminate; try contradiction; auto 12.
  - unfold outlineGlow.
    destruct (headbandActive pl total);
      destruct (loaded maskBitmaps "outline" && negb (CAP <=? total));
      destruct (loaded maskBitmaps "outline");
      destruct (Qle_bool det 0); cbn;
      intros Hx; decompose [or] Hx; try discriminate; try contradiction; auto 12.
Qed.

Lemma composite_order_witness :
  exists passes,
    finalComposite (Some (mkPlan false (Some true) [])) noOutline 250 3500
      = Some passes /\
    exists pre post,
      passes = MaskFill "silMask" (255, 255, 255) 0.12 0 :: pre
               ++ [MaskFill "eyesMaskTop" (255, 255, 255) 1 0;
                   MaskFill "eyesMaskRaw" (255, 255, 255) 1 0] ++ post /\
      (forall x, In x post -> exists a,
          x = MaskFill "pupilsMask" (17, 24, 39) a 0 \/
          x = MaskFill "nostrilsMask" (17, 24, 39) a 0) /\
      (forall layer mask k, In (LayerNeon layer mask k) passes ->
                            In (LayerNeon layer mask k) pre) /\
      (In outlineGlow passes -> In outlineGlow pre).
Proof.
  destruct (finalComposite (Some (mkPlan false (Some true) [])) noOutline 250 3500)
    as [passes|] eqn:E; [|vm_compute in E; discriminate].
  exists passes. split; [reflexivity|].
  apply (composite_order (mkPlan false (Some true) []) noOutline 250 3500 passes).
  exact E.
Defined.

End CompositePasses.

(** ** Buckets of the name tiles *)

Section Buckets.
Import JS Num FinalStage.

(** X16. [insideFactory] tests a point at the pixel nearest to it inside
    the mask: the rounded coordinates are clamped to the last row and
    column, the alpha byte read there exists in a buffer of the right
    size, and a point off the mask gives the answer of the edge pixel it
    is clamped to. *)
Theorem insideFactory_clamps (mask : ImageData) (px py : Q) :
  0 < width mask -> 0 < height mask ->
  Z.of_nat (length (data mask)) = 4 * width mask * height mask ->
  let xi := Z.max 0 (Z.min (width mask - 1) (Math_round px)) in
  let yi := Z.max 0 (Z.min (height mask - 1) (Math_round py)) in
  0 <= xi <= width mask - 1 /\ 0 <= yi <= height mask - 1 /\
  (exists a, data mask !! Z.to_nat ((yi * width mask + xi) * 4 + 3) = Some a /\
             insideFactory mask px py = (0 <? a)) /\
  insideFactory mask px py = insideFactory mask (inject_Z xi) (inject_Z yi).
Proof.
  intros Hw Hh Hlen xi yi.
  assert (Hx : 0 <= xi <= width mask - 1) by (unfold xi; lia).
  assert (Hy : 0 <= yi <= height mask - 1) by (unfold yi; lia).
  split; [exact Hx|]. split; [exact Hy|].
  assert (Hi : 0 <= (yi * width mask + xi) * 4 + 3 < Z.of_nat (length (data mask))).
  { rewrite Hlen. apply pixel_index_range; lia. }
  destruct (js_get_in_range _ _ Hi) as [E [a Ha]].
  split.
  - exists a. split; [now rewrite <- E|]. unfold insideFactory. fold xi yi. now rewrite Ha.
  - unfold insideFactory at 2. rewrite !Math_round_Z.
    replace (Z.max 0 (Z.min (width mask - 1) xi)) with xi by lia.
    replace (Z.max 0 (Z.min (height mask - 1) yi)) with yi by lia.
    reflexivity.
Qed.

Lemma insideFactory_clamps_witness :
  let mask := mkImageData 2 1 [0; 0; 0; 0; 0; 0; 0; 9] in
  let xi := Z.max 0 (Z.min (width mask - 1) (Math_round 7.5)) in
  let yi := Z.max 0 (Z.min (height mask - 1) (Math_round (-3))) in
  0 <= xi <= width mask - 1 /\ 0 <= yi <= height mask - 1 /\
  (exists a, data mask !! Z.to_nat ((yi * width mask + xi) * 4 + 3) = Some a /\
             insideFactory mask 7.5 (-3) = (0 <? a)) /\
  insideFactory mask 7.5 (-3) = insideFactory mask (inject_Z xi) (inject_Z yi).
Proof.
  apply (insideFactory_clamps (mkImageData 2 1 [0; 0; 0; 0; 0; 0; 0; 9]) 7.5 (-3)).
  - cbn. lia.
  - cbn. lia.
  - reflexivity.
Defined.

Lemma insideFactory_transparent (mask : ImageData) (px py : Q) :
  Forall (fun b => b = 0) (data mask) -> insideFactory mask px py = false.
Proof.
  intros Hz. unfold insideFactory.
  destruct (js_get _ _) as [a|] eqn:E; [|reflexivity].
  unfold js_get in E. destruct (_ <? 0); [discriminate|].
  rewrite Forall_forall in Hz. rewrite (Hz a); [reflexivity|].
  eapply list_elem_of_lookup_2. exact E.
Qed.

(** X17. Blank masks attract no tile: when the buffers of the hair, beak,
    feet and headband masks hold nothing but zeros, every tile goes to the
    body, whatever the size of the masks and wherever the tile lies. *)
Theorem transparent_masks_all_body (hb : bool) (m : Masks) (it : Tile) :
  Forall (fun b => b = 0) (data (hairMask m)) ->
  Forall (fun b => b = 0) (data (beakMask m)) ->
  Forall (fun b => b = 0) (data (feetMask m)) ->
  (forall hm, headbandMask m = Some hm -> Forall (fun b => b = 0) (data hm)) ->
  bucketOf hb m it = body.
Proof.
  intros Hh Hb Hf Hhb. unfold bucketOf, inHeadband.
  rewrite !insideFactory_transparent by assumption.
  destruct hb; cbn; [|reflexivity].
  destruct (headbandMask m) as [hm|] eqn:E; [|reflexivity].
  rewrite insideFactory_transparent by (now apply Hhb). reflexivity.
Qed.

Lemma transparent_masks_all_body_witness :
  let empty := mkImageData 1 1 [0; 0; 0; 0] in
  bucketOf true (mkMasks empty (Some empty) empty empty)
    (mkTile "text" "duck" 0.2 0.4 12 None) = body.
Proof.
  apply (transparent_masks_all_body true
           (mkMasks (mkImageData 1 1 [0; 0; 0; 0])
                    (Some (mkImageData 1 1 [0; 0; 0; 0]))
                    (mkImageData 1 1 [0; 0; 0; 0])
                    (mkImageData 1 1 [0; 0; 0; 0]))
           (mkTile "text" "duck" 0.2 0.4 12 None)).
  - repeat constructor.
  - repeat constructor.
  - repeat constructor.
  - intros hm [= <-]. repeat constructor.
Defined.

(** X18. A tile lands in the headband bucket only if the headband is
    active and has a mask, the tile is inside that mask, and it is not
    inside the hair. *)
Theorem headband_bucket_only_when_active (hb : bool) (m : Masks) (it : Tile) :
  bucketOf hb m it = headband ->
  hb = true /\
  (exists hm, headbandMask m = Some hm /\ inMask hm it = true) /\
  inMask (hairMask m) it = false.
Proof.
  unfold bucketOf, inHeadband, inMask.
  destruct (insideFactory (hairMask m) (x it) (y it)); [discriminate|].
  destruct hb; cbn.
  - destruct (headbandMask m) as [hm|].
    + destruct (insideFactory hm (x it) (y it)) eqn:E.
      * intros _. split; [reflexivity|]. split; [|reflexivity]. exists hm. auto.
      * destruct (insideFactory (beakMask m) _ _); [discriminate|].
        destruct (insideFactory (feetMask m) _ _); discriminate.
    + destruct (insideFactory (beakMask m) _ _); [discriminate|].
      destruct (insideFactory (feetMask m) _ _); discriminate.
  - destruct (insideFactory (beakMask m) _ _); [discriminate|].
    destruct (insideFactory (feetMask m) _ _); discriminate.
Qed.

Lemma headband_bucket_only_when_active_witness :
  let opaque := mkImageData 1 1 [0; 0; 0; 255] in
  let empty := mkImageData 1 1 [0; 0; 0; 0] in
  let m := mkMasks empty (Some opaque) opaque empty in
  let it := mkTile "text" "duck" 0.2 0.4 12 None in
  true = true /\
  (exists hm, headbandMask m = Some hm /\ inMask hm it = true) /\
  inMask (hairMask m) it = false.
Proof.
  apply (headband_bucket_only_when_active true
           (mkMasks (mkImageData 1 1 [0; 0; 0; 0]) (Some (mkImageData 1 1 [0; 0; 0; 255]))
                    (mkImageData 1 1 [0; 0; 0; 255]) (mkImageData 1 1 [0; 0; 0; 0]))
           (mkTile "text" "duck" 0.2 0.4 12 None)).
  reflexivity.
Defined.

(** X19. The classification loop draws the text tiles of the plan, all of
    them, once each and in the order of the plan, each into the bucket its
    position selects; tiles of any other kind are skipped. *)
Theorem drawNames_text_tiles (hb : bool) (m : Masks) (items : list Tile) :
  map snd (drawNames hb m items)
    = List.filter (fun it => String.eqb (kind it) "text") items /\
  map fst (drawNames hb m items)
    = map (bucketOf hb m) (List.filter (fun it => String.eqb (kind it) "text") items).
Proof.
  induction items as [|it items [IH1 IH2]]; [split; reflexivity|].
  cbn. destruct (String.eqb (kind it) "text"); cbn; rewrite ?IH1, ?IH2; split; reflexivity.
Qed.

End Buckets.

(** ** Requests, search hits and the cache *)

Section FetchFacts.
Import Fetch.

(** X20. The two plan requests. The preview asks for at most 1800 slots
    and never more than the cap or the subscriber count, and is made
    exactly when both are positive. The full request is made exactly when
    both exceed 1800, asks for the smaller of the two, and then the
    preview asked for 1800. When only the preview is made and promoted, it
    already asked for everything the full request would. *)
Theorem fetch_limits (CAP totalSubs : Z) :
  (forall p, previewRequest CAP totalSubs = Some p ->
             0 < p <= 1800 /\ p <= CAP /\ p <= totalSubs) /\
  (forall f, fullRequest CAP totalSubs = Some f ->
             1800 < f /\ f = Z.min CAP totalSubs /\
             previewRequest CAP totalSubs = Some 1800) /\
  (is_Some (fullRequest CAP totalSubs) <-> 1800 < CAP /\ 1800 < totalSubs) /\
  (is_Some (previewRequest CAP totalSubs) <-> 0 < CAP /\ 0 < totalSubs) /\
  (promotesPreview CAP totalSubs = true ->
   previewRequest CAP totalSubs = Some (Z.min CAP totalSubs)).
Proof.
  unfold promotesPreview, previewRequest, fullRequest, PREVIEW_LIMIT, FULL_LIMIT.
  destruct (Z.ltb_spec 0 (Z.min 1800 (Z.min CAP totalSubs))) as [Hp|Hp];
    destruct (Z.ltb_spec (Z.min 1800 (Z.min CAP totalSubs)) (Z.min CAP totalSubs))
      as [Hf|Hf].
  - split; [intros p [= <-]; lia|]. split; [intros f [= <-]; repeat split; try lia;
                                              f_equal; lia|].
    split; [split; [lia | eauto]|]. split; [split; [lia | eauto]|]. discriminate.
  - split; [intros p [= <-]; lia|]. split; [discriminate|].
    split; [split; [intros [? [=]] | lia]|]. split; [split; [lia | eauto]|].
    intros _. f_equal. lia.
  - split; [discriminate|]. split; [intros f [= <-]; lia|].
    split; [split; [lia | eauto]|]. split; [split; [intros [? [=]] | lia]|]. discriminate.
  - split; [discriminate|]. split; [discriminate|].
    split; [split; [intros [? [=]] | lia]|]. split; [split; [intros [? [=]] | lia]|].
    discriminate.
Qed.

End FetchFacts.

Section SearchFacts.
Import Search.

Lemma nextHit_value (len i : Z) :
  0 <= i < len -> nextHit len i = if i + 1 =? len then 0 else i + 1.
Proof.
  intros H. unfold nextHit. destruct (Z.eqb_spec len 0); [lia|].
  rewrite Z.rem_mod_nonneg by lia.
  destruct (Z.eqb_spec (i + 1) len) as [->|]; [apply Z_mod_same_full|].
  apply Z.mod_small. lia.
Qed.

Lemma prevHit_value (len i : Z) :
  0 <= i < len -> prevHit len i = if i =? 0 then len - 1 else i - 1.
Proof.
  intros H. unfold prevHit. destruct (Z.eqb_spec len 0); [lia|].
  rewrite Z.rem_mod_nonneg by lia.
  destruct (Z.eqb_spec i 0) as [->|].
  - replace (0 - 1 + len) with (len - 1) by lia. apply Z.mod_small. lia.
  - replace (i - 1 + len) with (i - 1 + 1 * len) by lia.
    rewrite Z_mod_plus_full. apply Z.mod_small. lia.
Qed.

(** X21. Stepping through the search hits. From a valid hit index both
    buttons lead to a valid index again, wrapping around at the ends;
    previous undoes next and next undoes previous; and the overlay shows
    the hit at that very index. *)
Theorem hit_navigation (len i : Z) :
  0 <= i < len ->
  0 <= nextHit len i < len /\ 0 <= prevHit len i < len /\
  prevHit len (nextHit len i) = i /\ nextHit len (prevHit len i) = i /\
  nextHit len (len - 1) = 0 /\ prevHit len 0 = len - 1 /\
  shownHit len i = i.
Proof.
  intros H.
  assert (Hn : 0 <= nextHit len i < len)
    by (rewrite nextHit_value by lia; destruct (Z.eqb_spec (i + 1) len); lia).
  assert (Hp : 0 <= prevHit len i < len)
    by (rewrite prevHit_value by lia; destruct (Z.eqb_spec i 0); lia).
  split; [exact Hn|]. split; [exact Hp|]. split; [|split; [|split; [|split]]].
  - rewrite prevHit_value by exact Hn. rewrite nextHit_value by lia.
    destruct (Z.eqb_spec (i + 1) len); cbn; [lia|].
    destruct (Z.eqb_spec (i + 1) 0); lia.
  - rewrite nextHit_value by exact Hp. rewrite prevHit_value by lia.
    destruct (Z.eqb_spec i 0); [destruct (Z.eqb_spec (len - 1 + 1) len); lia|].
    destruct (Z.eqb_spec (i - 1 + 1) len); lia.
  - rewrite nextHit_value by lia. destruct (Z.eqb_spec (len - 1 + 1) len); lia.
  - rewrite prevHit_value by lia. reflexivity.
  - unfold shownHit. lia.
Qed.

Lemma hit_navigation_witness :
  0 <= nextHit 5 4 < 5 /\ 0 <= prevHit 5 4 < 5 /\
  prevHit 5 (nextHit 5 4) = 4 /\ nextHit 5 (prevHit 5 4) = 4 /\
  nextHit 5 (5 - 1) = 0 /\ prevHit 5 0 = 5 - 1 /\
  shownHit 5 4 = 4.
Proof.
  apply (hit_navigation 5 4). lia.
Defined.

(** X22. [stripEllipsis] removes one trailing ellipsis and nothing else: a
    text ending in the ellipsis loses exactly that character, a text
    ending in any other character and the empty text are returned as they
    are, and in every case the result is the input without at most its
    last character. *)
Theorem stripEllipsis_spec (t : list Z) :
  stripEllipsis (t ++ [ellipsis]) = t /\
  (forall c, c <> ellipsis -> stripEllipsis (t ++ [c]) = t ++ [c]) /\
  stripEllipsis [] = [] /\
  (exists rest, t = stripEllipsis t ++ rest /\ (length rest <= 1)%nat).
Proof.
  unfold stripEllipsis, endsWithEllipsis. split; [|split; [|split]].
  - rewrite last_snoc, Z.eqb_refl, length_app. cbn.
    replace (length t + 1 - 1)%nat with (length t) by lia.
    now rewrite take_app_length.
  - intros c Hc. rewrite last_snoc. destruct (Z.eqb_spec c ellipsis); [contradiction|].
    reflexivity.
  - reflexivity.
  - destruct (last t) as [c|] eqn:E; [|exists []; split; [now rewrite app_nil_r | cbn; lia]].
    destruct (c =? ellipsis); [|exists []; split; [now rewrite app_nil_r | cbn; lia]].
    exists (drop (length t - 1) t). split; [now rewrite take_drop|].
    rewrite length_drop. lia.
Qed.

End SearchFacts.

Section CacheFacts.
Import Cache.
Context {P : Type}.

(** X23. The plan cache round trip. A plan written at a time [t] other
    than 0 is read back unchanged for the next thirty minutes, the last
    millisecond included, and not at all afterwards; a write that the
    storage refuses changes nothing; and a write touches no other key. *)
Theorem cache_round_trip (ls : gmap string (Stored P)) (t now : Z) (plan : P) :
  t <> 0 ->
  (now - t <= CACHE_TTL_MS ->
   readCachedPlan (writeCachedPlan true ls t plan) now = Some plan) /\
  (CACHE_TTL_MS < now - t ->
   readCachedPlan (writeCachedPlan true ls t plan) now = None) /\
  readCachedPlan (writeCachedPlan false ls t plan) now = readCachedPlan ls now /\
  (forall k, k <> CACHE_KEY -> writeCachedPlan true ls t plan !! k = ls !! k).
Proof.
  intros Ht. unfold readCachedPlan, writeCachedPlan.
  rewrite lookup_insert_eq.
  destruct (Z.eqb_spec t 0); [contradiction|].
  repeat split.
  - intros H. destruct (Z.ltb_spec CACHE_TTL_MS (now - t)); [lia | reflexivity].
  - intros H. destruct (Z.ltb_spec CACHE_TTL_MS (now - t)); [reflexivity | lia].
  - intros k Hk. now rewrite lookup_insert_ne.
Qed.

(** X24. When the cache answers. [readCachedPlan] returns a plan only if
    the stored entry parses, carries a time stamp other than 0 that is at
    most thirty minutes old, and carries that plan; a missing or
    unparsable entry, one without time stamp and an expired one all give
    nothing. *)
Theorem cache_misses (ls : gmap string (Stored P)) (now : Z) :
  (ls !! CACHE_KEY = None -> readCachedPlan ls now = None) /\
  (ls !! CACHE_KEY = Some Unparsable -> readCachedPlan ls now = None) /\
  (forall plan, ls !! CACHE_KEY = Some (Parsed None plan) -> readCachedPlan ls now = None) /\
  (forall t plan, ls !! CACHE_KEY = Some (Parsed (Some t) plan) ->
                  CACHE_TTL_MS < now - t -> readCachedPlan ls now = None) /\
  (forall plan, readCachedPlan ls now = Some plan ->
     exists t, ls !! CACHE_KEY = Some (Parsed (Some t) (Some plan)) /\
               t <> 0 /\ now - t <= CACHE_TTL_MS).
Proof.
  unfold readCachedPlan. repeat split.
  - now intros ->.
  - now intros ->.
  - now intros plan ->.
  - intros t plan -> H. destruct (t =? 0); [reflexivity|].
    destruct (Z.ltb_spec CACHE_TTL_MS (now - t)); [reflexivity | lia].
  - intros plan. destruct (ls !! CACHE_KEY) as [[|[t|] pl]|]; try discriminate.
    destruct (Z.eqb_spec t 0); [discriminate|].
    destruct (Z.ltb_spec CACHE_TTL_MS (now - t)); [discriminate|].
    intros ->. exists t. auto.
Qed.

End CacheFacts.

Lemma cache_round_trip_witness :
  (1900000 - 100000 <= Cache.CACHE_TTL_MS ->
   Cache.readCachedPlan (Cache.writeCachedPlan true ∅ 100000 7) 1900000 = Some 7) /\
  (Cache.CACHE_TTL_MS < 1900000 - 100000 ->
   Cache.readCachedPlan (Cache.writeCachedPlan true ∅ 100000 7) 1900000 = None) /\
  Cache.readCachedPlan (Cache.writeCachedPlan false ∅ 100000 7) 1900000
    = Cache.readCachedPlan ∅ 1900000 /\
  (forall k, k <> Cache.CACHE_KEY ->
     Cache.writeCachedPlan true (∅ : gmap string (Cache.Stored Z)) 100000 7 !! k
       = (∅ : gmap string (Cache.Stored Z)) !! k).
Proof.
  apply (cache_round_trip (P := Z) ∅ 100000 1900000 7). lia.
Defined.

(** ** The preview stage *)

Section PreviewFacts.
Import FinalStage Preview.
Local Open Scope nat_scope.

(** The while loop of [step] draws the next tiles in order, as many as the
    batch and the cap allow, and always finds the item it reads. *)
Lemma whileDraw_spec (items : list Tile) (todo i : nat) :
  i <= PREVIEW_DRAW_MAX items ->
  whileDraw items todo i
  = (take (Nat.min todo (PREVIEW_DRAW_MAX items - i)) (drop i items),
     i + Nat.min todo (PREVIEW_DRAW_MAX items - i)).
Proof.
  revert i. induction todo as [|todo IH]; intros i Hi; cbn [whileDraw].
  - cbn. now rewrite Nat.add_0_r.
  - destruct (Nat.ltb_spec i (PREVIEW_DRAW_MAX items)) as [Hlt|Hge].
    + assert (Hlen : i < length items) by (unfold PREVIEW_DRAW_MAX in Hlt; lia).
      destruct (lookup_lt_is_Some_2 items i Hlen) as [it Hit].
      rewrite Hit, IH by lia.
      replace (Nat.min (S todo) (PREVIEW_DRAW_MAX items - i))
        with (S (Nat.min todo (PREVIEW_DRAW_MAX items - S i))) by lia.
      rewrite (drop_S _ _ _ Hit). cbn. f_equal. lia.
    + replace (PREVIEW_DRAW_MAX items - i) with 0 by lia.
      rewrite Nat.min_0_r. cbn. now rewrite Nat.add_0_r.
Qed.

Lemma batch_covers (items : list Tile) :
  1 <= BATCH items /\ PREVIEW_DRAW_MAX items <= 11 * BATCH items.
Proof.
  unfold BATCH. pose proof (Nat.div_mod_eq (PREVIEW_DRAW_MAX items) 10).
  pose proof (Nat.mod_upper_bound (PREVIEW_DRAW_MAX items) 10). lia.
Qed.

(** The state of the preview after [k] animation frames. *)
Lemma previewStage_state (items : list Tile) (k : nat) :
  let st := previewStage items k in
  let MAX := PREVIEW_DRAW_MAX items in
  next st = Nat.min MAX (S k * BATCH items) /\
  textLayer st = take (next st) items /\
  pending st = (next st <? MAX) /\
  1 <= steps st <= Nat.min (S k) 11.
Proof.
  cbv zeta. destruct (batch_covers items) as [HB HM].
  induction k as [|k (IHn & IHt & IHp & IHb)].
  - unfold previewStage, step. cbn [Nat.iter nat_rect next textLayer steps].
    rewrite whileDraw_spec by lia. cbn [next textLayer steps pending].
    rewrite Nat.sub_0_r, drop_0. cbn [app].
    replace (0 + Nat.min (BATCH items) (PREVIEW_DRAW_MAX items))
      with (Nat.min (PREVIEW_DRAW_MAX items) (1 * BATCH items)) by lia.
    cbn [Nat.iter nat_rect next textLayer steps pending].
    split; [reflexivity|]. split; [f_equal; lia|]. split; [reflexivity | lia].
  - unfold previewStage in *. rewrite Nat.iter_succ.
    set (st := Nat.iter k (previewFrame items) _) in *.
    unfold previewFrame. rewrite IHp.
    destruct (Nat.ltb_spec (next st) (PREVIEW_DRAW_MAX items)) as [Hlt|Hge].
    + unfold step. rewrite whileDraw_spec by lia. cbn [next textLayer steps pending].
      assert (Hk : S k * BATCH items < PREVIEW_DRAW_MAX items) by lia.
      assert (Hk10 : S k <= 10) by nia.
      rewrite IHt.
      rewrite <- (take_take_drop items (next st)
                    (Nat.min (BATCH items) (PREVIEW_DRAW_MAX items - next st))).
      cbn [next textLayer steps pending].
      split; [nia|]. split; [f_equal; nia|]. split; [reflexivity | lia].
    + split; [nia|]. split; [exact IHt|].
      split; [rewrite IHp; symmetry; apply Nat.ltb_ge; lia | lia].
Qed.

(** X25. The preview finishes. After ten animation frames, and ever after,
    the text layer holds the first 2000 text tiles of the plan (all of
    them if there are fewer), in order; no further frame is requested; and
    [step] has run at least once and at most eleven times. *)
Theorem preview_completes (items : list Tile) (k : nat) :
  10 <= k ->
  textLayer (previewStage items k) = take 2000 items /\
  pending (previewStage items k) = false /\
  1 <= steps (previewStage items k) <= 11.
Proof.
  intros Hk. destruct (previewStage_state items k) as (Hn & Ht & Hp & Hb).
  destruct (batch_covers items) as [HB HM].
  assert (E : next (previewStage items k) = PREVIEW_DRAW_MAX items) by nia.
  rewrite Ht, Hp, E. split; [|split; [apply Nat.ltb_irrefl | lia]].
  unfold PREVIEW_DRAW_MAX.
  destruct (Nat.le_ge_cases 2000 (length items)).
  - now rewrite Nat.min_l.
  - rewrite Nat.min_r by lia. rewrite !take_ge by lia. reflexivity.
Qed.

Lemma preview_completes_witness :
  let items := [mkTile "text" "a" 1 2 12 None; mkTile "text" "b" 3 4 9 None] in
  textLayer (previewStage items 10) = take 2000 items /\
  pending (previewStage items 10) = false /\
  1 <= steps (previewStage items 10) <= 11.
Proof.
  apply (preview_completes
           [mkTile "text" "a" 1 2 12 None; mkTile "text" "b" 3 4 9 None] 10).
  lia.
Defined.

(** X26. The preview in progress. After the first call and [k] animation
    frames the text layer holds the first [(k + 1) * BATCH] text tiles, cut
    off at the cap, in order; another frame is requested exactly while
    that falls short of the cap; and a batch is between 120 and 200
    tiles. *)
Theorem preview_progress (items : list Tile) (k : nat) :
  textLayer (previewStage items k)
    = take (Nat.min (PREVIEW_DRAW_MAX items) (S k * BATCH items)) items /\
  (pending (previewStage items k) = true <->
   S k * BATCH items < PREVIEW_DRAW_MAX items) /\
  120 <= BATCH items <= 200.
Proof.
  destruct (previewStage_state items k) as (Hn & Ht & Hp & Hb).
  rewrite Ht, Hp, Hn. split; [reflexivity|]. split.
  - rewrite Nat.ltb_lt. lia.
  - unfold BATCH, PREVIEW_DRAW_MAX.
    pose proof (Nat.div_mod_eq (Nat.min 2000 (length items)) 10).
    pose proof (Nat.mod_upper_bound (Nat.min 2000 (length items)) 10). lia.
Qed.

End PreviewFacts.

(** ** Dilated masks and the body mask *)

Lemma Qmult_unit_le (a s : Q) :
  (0 <= a <= 1)%Q -> (0 <= s <= 1)%Q -> (0 <= a * s <= s)%Q.
Proof.
  intros Ha Hs. split; [apply Qmult_le_0_compat; lra|].
  assert (H : (a * s <= 1 * s)%Q) by (apply Qmult_le_compat_r; lra).
  lra.
Qed.

(** The exact compositing rules are an instance of the rules assumed. *)
Lemma gridCanvas_lawful : Stencil.lawful Stencil.gridCanvas.
Proof.
  constructor; intros; cbn in *; try reflexivity.
  - destruct s as [[sw sh] sa], d as [[dw dh] da]; cbn in *.
    unfold Stencil.unit in *.
    set (a := sa (x - dx) (y - dy)) in *. set (b := da x y) in *.
    pose proof (Qmult_unit_le b a ltac:(assumption) ltac:(assumption)) as Hp.
    assert (E : (b * (1 - a) == b - b * a)%Q) by ring.
    assert (Hq : (b * a <= b)%Q).
    { rewrite Qmult_comm. apply Qmult_unit_le; assumption. }
    assert (Hr : (0 <= b * (1 - a) <= 1 - a)%Q) by (apply Qmult_unit_le; lra).
    clearbody a b. clear H. repeat split.
    + lra.
    + lra.
    + lra.
    + intros Ho. destruct (Qlt_le_dec 0 a); [now left | right; lra].
    + intros Hb. rewrite Hb. ring.
    + intros Ha. rewrite Ha. ring.
  - destruct s as [[sw sh] sa], d as [[dw dh] da]; cbn in *.
    unfold Stencil.unit in *.
    set (a := sa x y) in *. set (b := da x y) in *.
    pose proof (Qmult_unit_le b a ltac:(assumption) ltac:(assumption)) as Hp.
    assert (E : (b * (1 - a) == b - b * a)%Q) by ring.
    assert (Hq : (b * a <= b)%Q).
    { rewrite Qmult_comm. apply Qmult_unit_le; assumption. }
    clearbody a b. clear H. rewrite E. repeat split.
    + lra.
    + lra.
    + intros Ha. rewrite Ha. ring.
    + intros Ha. rewrite Ha. ring.
Qed.

Lemma dot_unit (w h px py x y : Z) :
  Stencil.unit (Stencil.alphaAt Stencil.gridCanvas (Stencil.dot w h px py) x y).
Proof.
  unfold Stencil.unit, Stencil.dot. cbn. destruct (_ && _); lra.
Qed.

Section StencilFacts.
Import Stencil.
Variable C : Canvas2D.
Hypothesis HC : lawful C.

Lemma elem_of_dilateOffsets (radius dx dy : Z) :
  In (dx, dy) (dilateOffsets radius) <->
  - radius <= dx <= radius /\ - radius <= dy <= radius.
Proof.
  unfold dilateOffsets. rewrite in_flat_map. split.
  - intros (dy' & Hy & Hx). apply in_map_iff in Hx as (dx' & [= <- <-] & Hx).
    apply list_elem_of_In, elem_of_seqZ in Hy, Hx. lia.
  - intros [Hx Hy]. exists dy. split.
    + apply list_elem_of_In, elem_of_seqZ. lia.
    + apply in_map_iff. exists dx. split; [reflexivity|].
      apply list_elem_of_In, elem_of_seqZ. lia.
Qed.

(** Drawing a mask at a list of offsets: alpha only grows, stays within
    the unit interval, and is positive where the canvas was or where one
    of the shifted copies is. *)
Lemma draw_offsets (m : canvas C) (offs : list (Z * Z)) (d : canvas C) (x y : Z) :
  (forall x y, unit (alphaAt C m x y)) ->
  inside C d x y -> unit (alphaAt C d x y) ->
  let out := fold_left (fun out '(dx, dy) => drawImage C m dx dy out) offs d in
  cwidth C out = cwidth C d /\ cheight C out = cheight C d /\
  (alphaAt C d x y <= alphaAt C out x y <= 1)%Q /\
  (forall dx dy, In (dx, dy) offs ->
     (alphaAt C m (x - dx) (y - dy) <= alphaAt C out x y)%Q) /\
  ((0 < alphaAt C out x y)%Q <->
   (0 < alphaAt C d x y)%Q \/
   exists dx dy, In (dx, dy) offs /\ (0 < alphaAt C m (x - dx) (y - dy))%Q).
Proof.
  intros Hm. revert d. induction offs as [|[dx dy] offs IH]; intros d Hin Hd; cbn.
  - unfold unit in Hd. split; [reflexivity|]. split; [reflexivity|].
    split; [lra|]. split; [intros ? ? []|].
    split; [auto | intros [H|(? & ? & [] & _)]; exact H].
  - set (d' := drawImage C m dx dy d).
    assert (Hw : cwidth C d' = cwidth C d) by apply (draw_width C HC).
    assert (Hh : cheight C d' = cheight C d) by apply (draw_height C HC).
    assert (Hin' : inside C d' x y) by (unfold inside; rewrite Hw, Hh; exact Hin).
    destruct (draw_alpha C HC m dx dy d x y Hin (Hm _ _) Hd)
      as (E1 & E2 & E3 & E4 & _ & _). fold d' in E1, E2, E3, E4.
    pose proof (Hm (x - dx) (y - dy)) as Hs. unfold unit in Hs, Hd.
    assert (Hd' : unit (alphaAt C d' x y)) by (unfold unit; lra).
    destruct (IH d' Hin' Hd') as (I0 & I0' & I1 & I2 & I3).
    split; [congruence|]. split; [congruence|]. split; [lra|]. split.
    + intros dx' dy' [[= <- <-]|H]; [lra | now apply I2].
    + rewrite I3. split.
      * intros [H|(dx' & dy' & H & H')].
        -- destruct (E4 H) as [Hs0|Hd0]; [right | now left].
           exists dx, dy. split; [now left | exact Hs0].
        -- right. exists dx', dy'. split; [now right | exact H'].
      * intros [H|(dx' & dy' & [[= <- <-]|H] & H')].
        -- left. lra.
        -- left. lra.
        -- right. exists dx', dy'. auto.
Qed.

(** X27. [dilateAlphaMask1x] with a positive radius returns a new canvas
    of the size of the mask that covers the mask, alpha for alpha, and is
    visible exactly in the pixels that have a visible pixel of the mask
    within [radius] steps in both directions: the mask grown by a square
    of side [2 * radius + 1]. *)
Theorem dilateAlphaMask1x_support (m : canvas C) (radius x y : Z) :
  (forall x y, unit (alphaAt C m x y)) ->
  0 < radius -> inside C m x y ->
  exists out,
    dilateAlphaMask1x C (Some m) radius = Some out /\
    cwidth C out = cwidth C m /\ cheight C out = cheight C m /\
    (alphaAt C m x y <= alphaAt C out x y <= 1)%Q /\
    ((0 < alphaAt C out x y)%Q <->
     exists dx dy, - radius <= dx <= radius /\ - radius <= dy <= radius /\
                   (0 < alphaAt C m (x - dx) (y - dy))%Q).
Proof.
  intros Hm Hr Hin. unfold dilateAlphaMask1x.
  destruct (Z.leb_spec radius 0); [lia|].
  eexists. split; [reflexivity|].
  set (blank := createCanvas C (cwidth C m) (cheight C m)).
  assert (Hbw : cwidth C blank = cwidth C m) by apply (create_width C HC).
  assert (Hbh : cheight C blank = cheight C m) by apply (create_height C HC).
  assert (Hb : inside C blank x y) by (unfold inside; rewrite Hbw, Hbh; exact Hin).
  assert (Hb0 : (alphaAt C blank x y == 0)%Q) by apply (create_alpha C HC).
  destruct (draw_offsets m (dilateOffsets radius) blank x y Hm Hb
              ltac:(unfold unit; lra)) as (I0 & I0' & I1 & I2 & I3).
  set (out := fold_left _ _ _) in *.
  split; [congruence|]. split; [congruence|]. split.
  - split; [|lra].
    pose proof (I2 0 0 ltac:(apply elem_of_dilateOffsets; lia)) as H0.
    rewrite !Z.sub_0_r in H0. exact H0.
  - rewrite I3. split.
    + intros [Hp|(dx & dy & Hoff & Hp)]; [lra|].
      exists dx, dy. apply elem_of_dilateOffsets in Hoff. tauto.
    + intros (dx & dy & Hx & Hy & Hp). right. exists dx, dy.
      split; [apply elem_of_dilateOffsets; lia | exact Hp].
Qed.

Lemma destination_out_list (features : list (canvas C)) (base : canvas C) (x y : Z) :
  (forall m, In m features -> unit (alphaAt C m x y)) ->
  inside C base x y -> unit (alphaAt C base x y) ->
  let out := fold_left (fun base m => drawImageOut C m base) features base in
  (0 <= alphaAt C out x y <= alphaAt C base x y)%Q /\
  ((forall m, In m features -> (alphaAt C m x y == 0)%Q) ->
   (alphaAt C out x y == alphaAt C base x y)%Q) /\
  ((exists m, In m features /\ (alphaAt C m x y == 1)%Q) ->
   (alphaAt C out x y == 0)%Q).
Proof.
  revert base. induction features as [|m features IH]; intros base Hf Hin Hb; cbn.
  - unfold unit in Hb. split; [lra|]. split; [reflexivity|].
    intros (? & [] & _).
  - set (b' := drawImageOut C m base).
    assert (Hin' : inside C b' x y).
    { unfold inside, b'. rewrite (out_width C HC), (out_height C HC). exact Hin. }
    destruct (out_alpha C HC m base x y Hin (Hf m ltac:(now left)) Hb)
      as (E1 & E2 & E3). fold b' in E1, E2, E3.
    unfold unit in Hb.
    assert (Hb' : unit (alphaAt C b' x y)) by (unfold unit; lra).
    destruct (IH b' ltac:(intros; apply Hf; now right) Hin' Hb') as (I1 & I2 & I3).
    split; [lra|]. split.
    + intros Hz. rewrite I2 by (intros; apply Hz; now right).
      apply E2, Hz. now left.
    + intros (m' & [<-|Hm'] & H1).
      * specialize (E3 H1). lra.
      * apply I3. exists m'. auto.
Qed.

Lemma in_bodyFeatures (hb : bool) (hair : canvas C) (hbm : option (canvas C))
    (beak feet eyes m : canvas C) :
  In m (bodyFeatures C hb hair hbm beak feet eyes) <->
  m = hair \/ (hb = true /\ hbm = Some m) \/ m = beak \/ m = feet \/ m = eyes.
Proof.
  unfold bodyFeatures. destruct hb, hbm as [hm|]; cbn; split; intros H;
    decompose [or and] H; subst; try discriminate; try contradiction; auto 8.
  - match goal with E : Some _ = Some _ |- _ => injection E as -> end. auto.
Qed.

(** X28. [makeBodyMask] is the silhouette minus the features. In every
    pixel the body mask is no more opaque than the silhouette; it equals
    the silhouette where hair, beak, feet, the dilated eyes and, when the
    headband is active, the headband are all transparent; and it is fully
    transparent where one of them is fully opaque. Under a feature that is
    only partly opaque nothing is claimed beyond the first bound. An
    inactive headband takes nothing off the body. *)
Theorem makeBodyMask_subtracts (sil : canvas C) (hb : bool) (hair : canvas C)
    (hbm : option (canvas C)) (beak feet eyes : canvas C) (x y : Z) :
  inside C sil x y ->
  unit (alphaAt C sil x y) -> unit (alphaAt C hair x y) ->
  unit (alphaAt C beak x y) -> unit (alphaAt C feet x y) ->
  unit (alphaAt C eyes x y) ->
  (forall hm, hbm = Some hm -> unit (alphaAt C hm x y)) ->
  let body := makeBodyMask C sil hb hair hbm beak feet eyes in
  (0 <= alphaAt C body x y <= alphaAt C sil x y)%Q /\
  ((alphaAt C hair x y == 0)%Q -> (alphaAt C beak x y == 0)%Q ->
   (alphaAt C feet x y == 0)%Q -> (alphaAt C eyes x y == 0)%Q ->
   (forall hm, hb = true -> hbm = Some hm -> (alphaAt C hm x y == 0)%Q) ->
   (alphaAt C body x y == alphaAt C sil x y)%Q) /\
  ((alphaAt C hair x y == 1)%Q \/ (alphaAt C beak x y == 1)%Q \/
   (alphaAt C feet x y == 1)%Q \/ (alphaAt C eyes x y == 1)%Q \/
   (hb = true /\ exists hm, hbm = Some hm /\ (alphaAt C hm x y == 1)%Q) ->
   (alphaAt C body x y == 0)%Q).
Proof.
  intros Hin Hs Hhair Hbeak Hfeet Heyes Hhb. unfold makeBodyMask.
  set (blank := createCanvas C (cwidth C sil) (cheight C sil)).
  assert (Hb : inside C blank x y).
  { unfold inside, blank. rewrite (create_width C HC), (create_height C HC). exact Hin. }
  assert (Hb0 : (alphaAt C blank x y == 0)%Q) by apply (create_alpha C HC).
  set (base := drawImage C sil 0 0 blank).
  assert (Hbase : inside C base x y).
  { unfold inside, base. rewrite (draw_width C HC), (draw_height C HC). exact Hb. }
  assert (E : (alphaAt C base x y == alphaAt C sil x y)%Q).
  { pose proof (draw_alpha C HC sil 0 0 blank x y Hb) as D.
    rewrite !Z.sub_0_r in D.
    destruct (D Hs ltac:(unfold unit; lra)) as (_ & _ & _ & _ & D5 & _).
    apply D5, Hb0. }
  set (features := bodyFeatures C hb hair hbm beak feet eyes).
  assert (Hf : forall m, In m features -> unit (alphaAt C m x y)).
  { intros m Hm. apply in_bodyFeatures in Hm.
    destruct Hm as [-> | [[_ Hm] | [-> | [-> | ->]]]]; auto. }
  unfold unit in Hs.
  destruct (destination_out_list features base x y Hf Hbase
              ltac:(unfold unit; lra)) as (I1 & I2 & I3).
  split; [lra|]. split.
  - intros Z1 Z2 Z3 Z4 Z5. rewrite I2; [exact E|].
    intros m Hm. apply in_bodyFeatures in Hm.
    destruct Hm as [-> | [[Hb1 Hm] | [-> | [-> | ->]]]]; auto.
  - intros H. apply I3.
    destruct H as [H|[H|[H|[H|[Hb1 (hm & Hm & H)]]]]].
    + exists hair. split; [apply in_bodyFeatures; auto | exact H].
    + exists beak. split; [apply in_bodyFeatures; auto | exact H].
    + exists feet. split; [apply in_bodyFeatures; auto | exact H].
    + exists eyes. split; [apply in_bodyFeatures; auto 6 | exact H].
    + exists hm. split; [apply in_bodyFeatures; auto | exact H].
Qed.

End StencilFacts.

Lemma dilateAlphaMask1x_support_witness :
  let m := Stencil.dot 3 3 1 1 in
  exists out,
    Stencil.dilateAlphaMask1x Stencil.gridCanvas (Some m) 1 = Some out /\
    Stencil.cwidth Stencil.gridCanvas out = Stencil.cwidth Stencil.gridCanvas m /\
    Stencil.cheight Stencil.gridCanvas out = Stencil.cheight Stencil.gridCanvas m /\
    (Stencil.alphaAt Stencil.gridCanvas m 0 0
     <= Stencil.alphaAt Stencil.gridCanvas out 0 0 <= 1)%Q /\
    ((0 < Stencil.alphaAt Stencil.gridCanvas out 0 0)%Q <->
     exists dx dy, - 1 <= dx <= 1 /\ - 1 <= dy <= 1 /\
                   (0 < Stencil.alphaAt Stencil.gridCanvas m (0 - dx) (0 - dy))%Q).
Proof.
  apply (dilateAlphaMask1x_support Stencil.gridCanvas gridCanvas_lawful
           (Stencil.dot 3 3 1 1) 1 0 0).
  - intros x y. apply dot_unit.
  - lia.
  - unfold Stencil.inside. cbn. lia.
Defined.

Lemma makeBodyMask_subtracts_witness :
  let C := Stencil.gridCanvas in
  let sil := Stencil.dot 2 1 0 0 in
  let eyes := Stencil.dot 2 1 0 0 in
  let off := Stencil.dot 2 1 1 0 in
  let body := Stencil.makeBodyMask C sil true off (Some off) off off eyes in
  (Stencil.alphaAt C sil 0 0 == 1)%Q /\ (Stencil.alphaAt C eyes 0 0 == 1)%Q /\
  (0 <= Stencil.alphaAt C body 0 0 <= Stencil.alphaAt C sil 0 0)%Q /\
  (Stencil.alphaAt C body 0 0 == 0)%Q.
Proof.
  destruct (makeBodyMask_subtracts Stencil.gridCanvas gridCanvas_lawful
              (Stencil.dot 2 1 0 0) true (Stencil.dot 2 1 1 0)
              (Some (Stencil.dot 2 1 1 0)) (Stencil.dot 2 1 1 0) (Stencil.dot 2 1 1 0)
              (Stencil.dot 2 1 0 0) 0 0) as (H1 & H2 & H3).
  - unfold Stencil.inside. cbn. lia.
  - apply dot_unit.
  - apply dot_unit.
  - apply dot_unit.
  - apply dot_unit.
  - apply dot_unit.
  - intros hm [= <-]. apply dot_unit.
  - split; [reflexivity|]. split; [reflexivity|]. split; [exact H1|].
    apply H3. right. right. right. left. reflexivity.
Defined.
